(** * Linien control plane: remote parameter mirror and acquisition supervisor

    A shallow embedding of

    - [linien_client/remote_parameters.py] ([RemoteParameter],
      [RemoteParameters]): the client-side mirror of the server's parameters;
    - [linien_server/acquisition/controller.py] ([AcquisitionProcessSignals],
      [AcquisitionController]): the supervisor of the acquisition worker and
      the worker's main loop.

    Python objects are modelled by their attribute dictionaries, exceptions by
    an explicit outcome, remote calls and callback invocations by a trace of
    events.

    - The mirror is its instance dictionary, a finite map from attribute
      names to objects; attribute access on it is dynamically typed, as in
      the source: a missing attribute or an object of the wrong kind raises.
    - Every handle is created by [__init__] and bound to one attribute, so a
      handle is kept in the dictionary by value and a reference to it is the
      name it is bound to.
    - A callback is opaque: calling it is an event of the trace.  What the
      server and the connection do is an input: the inventory, the value the
      server holds for a parameter, and for each poll whether the results of
      the outstanding calls have arrived.
    - The worker's loop does not end by itself; it is run over a finite
      script of iterations, each with the tuples it finds in the pipe and
      the answer of the acquisition service.
    - The supervisor and its worker are two processes joined by a pipe.  A
      run of the two is a sequence of moments: a call of a method of the
      supervisor, a round of the worker through the pipe, the end of the
      worker's process.  When the worker's process ends its end of the pipe
      closes, and a later write of the supervisor raises. *)

From Stdlib Require Import ZArith QArith String List.
From stdpp Require Import gmap strings list fin_maps.

Set Warnings "-register-all".

(** ** Python values and exceptions *)

(** The values that travel pickled over the wire: parameter values, uuids,
    command payloads. *)
Inductive pyval :=
| VNone
| VBool (b : bool)
| VInt (z : Z)
| VStr (s : string)
| VTuple (l : list pyval).

(** Python's truth value of an unpickled value. *)
Definition truthy_val (v : pyval) : bool :=
  match v with
  | VNone => false
  | VBool b => b
  | VInt z => negb (Z.eqb z 0%Z)
  | VStr s => negb (String.eqb s "")
  | VTuple l => match l with [] => false | _ => true end
  end.

(** The exceptions the modelled code can raise. *)
Inductive exn :=
| AttributeError
| TypeError
| IndexError
| KeyError
| AsyncResultTimeout
| BrokenPipeError
| SystemExit.

(** The result of running a piece of Python: a value or a raised
    exception. *)
Inductive outcome (A : Type) :=
| Ret (a : A)
| Raise (e : exn).
Arguments Ret {A} a.
Arguments Raise {A} e.

(** * remote_parameters.py *)

Module RemoteParameters.

(** A callback is an opaque Python callable; it is identified by a number and
    its invocation is recorded in the trace. *)
Definition callback := nat.

(** [class RemoteParameter]: the instance attributes set by [__init__], and
    [_cached_value], which exists only after [update_cache] ran.  The
    [parent] attribute is the owning mirror; the operations below receive
    the mirror as the state they run in. *)
Record RemoteParameter := {
  name : string;
  use_cache : bool;
  restorable : bool;
  loggable : bool;
  _cached_value : option pyval
}.

(** The two calls the mirror issues through [rpyc.async_]; an [AsyncResult]
    is identified by the call it stands for. *)
Inductive async_call :=
| GetChangedParametersQueue
| RegisterRemoteListeners.

(** An element of a Python list: a parameter name or a callback. *)
Inductive item :=
| IStr (s : string)
| ICallback (cb : callback).

#[global] Instance item_eq_dec : EqDecision item.
Proof. solve_decision. Defined.

(** What an attribute of a Python object may be bound to. *)
Inductive pyobj :=
| OParam (p : RemoteParameter)
| OVal (v : pyval)
| OAsync (c : async_call)
| OList (l : list item)
| ODict (d : gmap string (list callback))
| ORemote
| OMirror.

(** The instance dictionary ([__dict__]) of a [RemoteParameters] object. *)
Abbreviation mirror := (gmap string pyobj).

Definition truthy (o : pyobj) : bool :=
  match o with
  | OVal v => truthy_val v
  | OList l => match l with [] => false | _ => true end
  | ODict d => negb (bool_decide (d = ∅))
  | OParam _ | OAsync _ | ORemote | OMirror => true
  end.

(** Calls to the server and invocations of callbacks, in program order.
    [UpdateCache], [ResultChangedParametersQueue] and [ListenerRegistered]
    record local steps (a cache write, the consumption of a ready fetch, the
    release of the registration marker) so that orderings can be stated. *)
Inductive event :=
| CallInitParameterSync (uuid : pyobj)
| CallGetParam (n : string)
| CallSetParam (n : string) (value : pyval)
| CallResetParam (n : string)
| AsyncGetChangedParametersQueue (uuid : pyobj)
| AsyncRegisterRemoteListeners (uuid : pyobj) (pending : pyobj)
| ResultChangedParametersQueue (queue : list (string * pyval))
| ListenerRegistered
| UpdateCache (n : string) (value : pyval)
| Callback (cb : callback) (value : pyval).

(** What the connection delivers during one call of
    [check_for_changed_parameters]: the batch of the outstanding
    [get_changed_parameters_queue] call if its result has arrived, and
    whether the outstanding [register_remote_listeners] call has returned. *)
Record net := {
  changed_parameters_queue : option (list (string * pyval));
  listener_registering_ready : bool
}.

(** ** The monad of mirror code: state, trace and exceptions *)

Definition M (A : Type) : Type := mirror → outcome A * mirror * list event.

Definition ret {A} (a : A) : M A := λ m, (Ret a, m, []).
Definition raise {A} (e : exn) : M A := λ m, (Raise e, m, []).
Definition bind {A B} (c : M A) (k : A → M B) : M B := λ m,
  match c m with
  | (Ret a, m1, t1) =>
      match k a m1 with (o, m2, t2) => (o, m2, t1 ++ t2) end
  | (Raise e, m1, t1) => (Raise e, m1, t1)
  end.

Notation "x <~ c ; k" := (bind c (λ x, k))
  (at level 100, c at next level, right associativity).
Notation "c ;; k" := (bind c (λ _, k))
  (at level 100, right associativity).

Definition emit (e : event) : M unit := λ m, (Ret tt, m, [e]).
Definition lift {A} (o : outcome A) : M A := λ m, (o, m, []).

(** [for x in l: body x] *)
Fixpoint for_each {A} (l : list A) (body : A → M unit) : M unit :=
  match l with
  | [] => ret tt
  | x :: l' => body x ;; for_each l' body
  end.

(** [self.<attr>] on the mirror. *)
Definition getattr (attr : string) : M pyobj := λ m,
  match m !! attr with
  | Some o => (Ret o, m, [])
  | None => (Raise AttributeError, m, [])
  end.

Definition hasattr (attr : string) : M bool := λ m,
  (Ret (bool_decide (is_Some (m !! attr))), m, []).

(** The entry [attr] of the instance dictionary becomes [o]: what
    [object.__setattr__] does for an ordinary name, and what the in-place
    mutation of the object bound to [attr] amounts to (a list's [append] and
    [clear], a dict's [setdefault], a handle's [update_cache]). *)
Definition store (attr : string) (o : pyobj) : M unit := λ m,
  (Ret tt, <[attr := o]> m, []).

(** The names [object.__setattr__] does not look for in the instance
    dictionary: the data descriptors [__class__] of [object] and
    [__dict__] and [__weakref__] of the class. *)
Definition data_descriptor (attr : string) : bool :=
  String.eqb attr "__class__" || String.eqb attr "__dict__" ||
  String.eqb attr "__weakref__".

(** The instance dictionary a dictionary of callback lists makes. *)
Definition instance_dict (d : gmap string (list callback)) : mirror :=
  (λ l, OList (ICallback <$> l)) <$> d.

(** [object.__setattr__(self, attr, value)], which [super().__setattr__]
    is.  [__class__] takes a class only, and none of the objects at hand is
    one; [__weakref__] is not writable; [__dict__] takes a dictionary only,
    which then is the instance dictionary; every other name is stored in
    the instance dictionary. *)
Definition object_setattr (attr : string) (value : pyobj) : M unit :=
  if String.eqb attr "__class__" then raise TypeError
  else if String.eqb attr "__weakref__" then raise AttributeError
  else if String.eqb attr "__dict__" then
    match value with
    | ODict d => λ _, (Ret tt, instance_dict d, [])
    | _ => raise TypeError
    end
  else store attr value.

(** [RemoteParameters.__setattr__] *)
Definition __setattr__ (attr : string) (value : pyobj) : M unit :=
  h <~ hasattr "_attributes_locked";
  locked <~ (if h : bool then o <~ getattr "_attributes_locked"; ret (truthy o)
             else ret false);
  if locked && negb (String.prefix "_" attr)
  then raise AttributeError
  else object_setattr attr value.

(** ** RemoteParameter *)

(** Attribute lookup on a handle: its instance dictionary.  (Its class
    provides [value], [add_callback], [reset] and [update_cache] only.) *)
Definition param_getattr (self : RemoteParameter) (attr : string) : outcome pyobj :=
  if String.eqb attr "name" then Ret (OVal (VStr (name self)))
  else if String.eqb attr "parent" then Ret OMirror
  else if String.eqb attr "use_cache" then Ret (OVal (VBool (use_cache self)))
  else if String.eqb attr "restorable" then Ret (OVal (VBool (restorable self)))
  else if String.eqb attr "loggable" then Ret (OVal (VBool (loggable self)))
  else if String.eqb attr "_cached_value" then
    match _cached_value self with
    | Some v => Ret (OVal v)
    | None => Raise AttributeError
    end
  else Raise AttributeError.

(** [RemoteParameter.update_cache] *)
Definition update_cache (self : RemoteParameter) (value : pyval) : RemoteParameter :=
  {| name := name self; use_cache := use_cache self;
     restorable := restorable self; loggable := loggable self;
     _cached_value := Some value |}.

(** [self.parent.remote.exposed_<method>]: the attribute [remote] must be
    the connection root. *)
Definition remote : M unit :=
  r <~ getattr "remote";
  match r with
  | ORemote => ret tt
  | _ => raise AttributeError
  end.

(** [RemoteParameter.value] (getter).  [server] is the value the server
    holds for each parameter at the time of the call. *)
Definition value (server : string → pyval) (self : RemoteParameter) : M pyval :=
  match _cached_value self with
  | Some v => ret v
  | None =>
      remote ;;
      emit (CallGetParam (name self)) ;;
      ret (server (name self))
  end.

(** [RemoteParameter.value] (setter) *)
Definition set_value (self : RemoteParameter) (v : pyval) : M unit :=
  remote ;;
  emit (CallSetParam (name self) v).

(** [RemoteParameter.reset] *)
Definition reset (self : RemoteParameter) : M unit :=
  remote ;;
  emit (CallResetParam (name self)).

(** [x in o] for a string [x]. *)
Fixpoint str_contains (x s : string) : bool :=
  String.prefix x s ||
  match s with
  | EmptyString => false
  | String _ s' => str_contains x s'
  end.

Definition py_in (x : string) (o : pyobj) : outcome bool :=
  match o with
  | ODict d => Ret (bool_decide (is_Some (d !! x)))
  | OList l => Ret (bool_decide (IStr x ∈ l))
  | OVal (VStr s) => Ret (str_contains x s)
  | OVal (VTuple l) =>
      Ret (existsb (λ v, match v with VStr s => String.eqb s x | _ => false end) l)
  | _ => Raise TypeError
  end.

(** [self.parent._callbacks], on which [setdefault] and [[...].append] are
    called: only a dictionary has them. *)
Definition parent_callbacks : M (gmap string (list callback)) :=
  c <~ getattr "_callbacks";
  match c with
  | ODict d => ret d
  | _ => raise AttributeError
  end.

(** [RemoteParameter.add_callback] *)
Definition add_callback (server : string → pyval) (self : RemoteParameter)
    (cb : callback) (call_with_first_value : bool) : M unit :=
  own <~ lift (param_getattr self "_callbacks");
  known <~ lift (py_in (name self) own);
  (if negb known && negb (use_cache self) then
     pending <~ getattr "_listeners_pending_remote_registration";
     match pending with
     | OList l =>
         store "_listeners_pending_remote_registration"
           (OList (l ++ [IStr (name self)]))
     | _ => raise AttributeError
     end
   else ret tt) ;;
  d <~ parent_callbacks;
  let d1 := match d !! name self with Some _ => d | None => <[name self := []]> d end in
  store "_callbacks" (ODict d1) ;;
  d2 <~ parent_callbacks;
  match d2 !! name self with
  | Some l => store "_callbacks" (ODict (<[name self := l ++ [cb]]> d2))
  | None => raise KeyError
  end ;;
  if call_with_first_value then
    v <~ value server self;
    emit (Callback cb v)
  else ret tt.

(** ** RemoteParameters *)

Definition is_None (o : pyobj) : bool :=
  match o with
  | OVal VNone => true
  | _ => false
  end.

(** [async_(self.remote.exposed_get_changed_parameters_queue)(self.uuid)] *)
Definition async_get_changed_parameters_queue : M pyobj :=
  remote ;;
  u <~ getattr "uuid";
  emit (AsyncGetChangedParametersQueue u) ;;
  ret (OAsync GetChangedParametersQueue).

(** [async_(self.remote.exposed_register_remote_listeners)(self.uuid, pending)] *)
Definition async_register_remote_listeners (pending : pyobj) : M pyobj :=
  remote ;;
  u <~ getattr "uuid";
  emit (AsyncRegisterRemoteListeners u pending) ;;
  ret (OAsync RegisterRemoteListeners).

(** [o.ready] *)
Definition ready (nw : net) (o : pyobj) : outcome bool :=
  match o with
  | OAsync GetChangedParametersQueue =>
      Ret (bool_decide (is_Some (changed_parameters_queue nw)))
  | OAsync RegisterRemoteListeners => Ret (listener_registering_ready nw)
  | _ => Raise AttributeError
  end.

(** [pickle.loads(o.value)].  The result of a registration is [None], which
    does not unpickle; the value of a fetch that has not arrived is waited
    for until the call times out. *)
Definition loads_value (nw : net) (o : pyobj) : outcome (list (string * pyval)) :=
  match o with
  | OAsync GetChangedParametersQueue =>
      match changed_parameters_queue nw with
      | Some queue => Ret queue
      | None => Raise AsyncResultTimeout
      end
  | OAsync RegisterRemoteListeners => Raise TypeError
  | _ => Raise AttributeError
  end.

(** [o[:]] *)
Definition slice_all (o : pyobj) : outcome pyobj :=
  match o with
  | OList l => Ret (OList l)
  | OVal (VStr s) => Ret (OVal (VStr s))
  | OVal (VTuple l) => Ret (OVal (VTuple l))
  | _ => Raise TypeError
  end.

(** [self._listeners_pending_remote_registration.clear()] *)
Definition clear_pending : M unit :=
  p <~ getattr "_listeners_pending_remote_registration";
  match p with
  | OList _ => store "_listeners_pending_remote_registration" (OList [])
  | ODict _ => store "_listeners_pending_remote_registration" (ODict ∅)
  | _ => raise AttributeError
  end.

(** The body of the first loop over the received batch: the cache of one
    entry's handle. *)
Definition update_entry (entry : string * pyval) : M unit :=
  let '(param_name, v) := entry in
  o <~ getattr param_name;
  match o with
  | OParam param =>
      if use_cache param then
        emit (UpdateCache param_name v) ;;
        store param_name (OParam (update_cache param v))
      else ret tt
  | _ => raise AttributeError
  end.

(** [for param_name, value in queue: ... param.update_cache(value)] *)
Definition update_caches (queue : list (string * pyval)) : M unit :=
  for_each queue update_entry.

(** The body of the second loop over the received batch: the callbacks of
    one entry's name. *)
Definition call_entry (entry : string * pyval) : M unit :=
  let '(param_name, v) := entry in
  c <~ getattr "_callbacks";
  known <~ lift (py_in param_name c);
  if known : bool then
    c' <~ getattr "_callbacks";
    match c' with
    | ODict d =>
        match d !! param_name with
        | Some l => for_each l (λ cb, emit (Callback cb v))
        | None => raise KeyError
        end
    | _ => raise TypeError
    end
  else ret tt.

(** [for param_name, value in queue: ... callback(value)] *)
Definition call_callbacks (queue : list (string * pyval)) : M unit :=
  for_each queue call_entry.

(** The four blocks of [check_for_changed_parameters], in the order of the
    source. *)

(** [if self._async_changed_parameters_queue is None: ...] *)
Definition start_fetch : M unit :=
  a <~ getattr "_async_changed_parameters_queue";
  if is_None a then
    f <~ async_get_changed_parameters_queue;
    __setattr__ "_async_changed_parameters_queue" f
  else ret tt.

(** [if self._async_listener_registering is None: ...] *)
Definition start_registration : M unit :=
  r <~ getattr "_async_listener_registering";
  if is_None r then
    pending <~ getattr "_listeners_pending_remote_registration";
    if truthy pending then
      copy <~ lift (slice_all pending);
      f <~ async_register_remote_listeners copy;
      __setattr__ "_async_listener_registering" f ;;
      clear_pending
    else ret tt
  else ret tt.

(** [if self._async_changed_parameters_queue is not None and
    self._async_changed_parameters_queue.ready: ...] *)
Definition consume_fetch (nw : net) : M unit :=
  a <~ getattr "_async_changed_parameters_queue";
  if is_None a then ret tt
  else
    rd <~ lift (ready nw a);
    if rd : bool then
      a' <~ getattr "_async_changed_parameters_queue";
      queue <~ lift (loads_value nw a');
      emit (ResultChangedParametersQueue queue) ;;
      f <~ async_get_changed_parameters_queue;
      __setattr__ "_async_changed_parameters_queue" f ;;
      update_caches queue ;;
      call_callbacks queue
    else ret tt.

(** [if self._async_listener_registering is not None and
    self._async_listener_registering.ready: ...] *)
Definition finish_registration (nw : net) : M unit :=
  r <~ getattr "_async_listener_registering";
  if is_None r then ret tt
  else
    rd <~ lift (ready nw r);
    if rd : bool then
      emit ListenerRegistered ;;
      __setattr__ "_async_listener_registering" (OVal VNone)
    else ret tt.

(** [RemoteParameters.check_for_changed_parameters] *)
Definition check_for_changed_parameters (nw : net) : M unit :=
  start_fetch ;;
  start_registration ;;
  consume_fetch nw ;;
  finish_registration nw.

(** One entry of the inventory returned by [exposed_init_parameter_sync]:
    name, value, can_be_cached, restorable, loggable. *)
Definition inventory_entry : Type := string * pyval * bool * bool * bool.

(** The body of the loop over the inventory in [__init__]: the handle of one
    parameter. *)
Definition add_parameter (use_cache_arg : bool) (entry : inventory_entry) : M unit :=
  let '(n, v, can_be_cached, restorable_arg, loggable_arg) := entry in
  let param := {| name := n; use_cache := use_cache_arg && can_be_cached;
                  restorable := restorable_arg; loggable := loggable_arg;
                  _cached_value := None |} in
  __setattr__ n (OParam param) ;;
  if use_cache param then store n (OParam (update_cache param v)) else ret tt.

(** [self.<attr>(...)] where a method of the class is meant: an instance
    attribute of that name comes first, and none of the objects at hand can
    be called. *)
Definition method (attr : string) : M unit := λ m,
  match m !! attr with
  | Some _ => (Raise TypeError, m, [])
  | None => (Ret tt, m, [])
  end.

(** [RemoteParameters.__init__].  [all_parameters] is the server's answer to
    [exposed_init_parameter_sync]; [nw] is what the connection delivers
    during the first [check_for_changed_parameters]. *)
Definition __init__ (uuid : string) (use_cache_arg : bool)
    (all_parameters : list inventory_entry) (nw : net) : M unit :=
  __setattr__ "remote" ORemote ;;
  __setattr__ "uuid" (OVal (VStr uuid)) ;;
  __setattr__ "_async_changed_parameters_queue" (OVal VNone) ;;
  __setattr__ "_async_listener_registering" (OVal VNone) ;;
  __setattr__ "_listeners_pending_remote_registration" (OList []) ;;
  __setattr__ "_callbacks" (ODict ∅) ;;
  remote ;;
  u <~ getattr "uuid";
  emit (CallInitParameterSync u) ;;
  for_each all_parameters (add_parameter use_cache_arg) ;;
  __setattr__ "_attributes_locked" (OVal (VBool true)) ;;
  method "check_for_changed_parameters" ;;
  check_for_changed_parameters nw.

(** ** The mirror as its callers use it *)

(** [r.<attr>] where a handle is expected. *)
Definition handle (attr : string) : M RemoteParameter :=
  o <~ getattr attr;
  match o with
  | OParam p => ret p
  | _ => raise AttributeError
  end.

(** [r.<attr>.value] *)
Definition read (server : string → pyval) (attr : string) : M pyval :=
  p <~ handle attr;
  value server p.

(** [r.<attr>.value = v] *)
Definition write (attr : string) (v : pyval) : M unit :=
  p <~ handle attr;
  set_value p v.

(** [r.<attr>.add_callback(cb, call_with_first_value)] *)
Definition register_callback (server : string → pyval) (attr : string)
    (cb : callback) (call_with_first_value : bool) : M unit :=
  p <~ handle attr;
  add_callback server p cb call_with_first_value.

(** The mirror [RemoteParameters(remote, uuid, use_cache)] builds: the
    outcome, the instance dictionary and the trace of [__init__] on a fresh
    object. *)
Definition construct (uuid : string) (use_cache_arg : bool)
    (all_parameters : list inventory_entry) (nw : net)
  : outcome unit * mirror * list event :=
  __init__ uuid use_cache_arg all_parameters nw ∅.

(** A sequence of [check_for_changed_parameters] calls, one per element of
    [nws]; a caller that catches an exception goes on polling. *)
Fixpoint polls (nws : list net) (m : mirror) : mirror * list event :=
  match nws with
  | [] => (m, [])
  | nw :: nws' =>
      match check_for_changed_parameters nw m with
      | (_, m1, t1) =>
          match polls nws' m1 with (m2, t2) => (m2, t1 ++ t2) end
      end
  end.

(** What the code that owns a mirror does with it between construction and
    the end: it polls, [r.check_for_changed_parameters()], and it may put
    names into the list of listeners pending registration,
    [r._listeners_pending_remote_registration = pending], which the lock
    leaves open to it. *)
Inductive action :=
| Poll (nw : net)
| Pend (pending : pyobj).

Definition act (a : action) : M unit :=
  match a with
  | Poll nw => check_for_changed_parameters nw
  | Pend pending =>
      __setattr__ "_listeners_pending_remote_registration" pending
  end.

(** A sequence of such actions; a caller that catches an exception goes
    on. *)
Fixpoint session (actions : list action) (m : mirror) : mirror * list event :=
  match actions with
  | [] => (m, [])
  | a :: actions' =>
      match act a m with
      | (_, m1, t1) =>
          match session actions' m1 with (m2, t2) => (m2, t1 ++ t2) end
      end
  end.

(** ** Notions used in the statements *)

(** [hasattr(self, "_attributes_locked") and self._attributes_locked] *)
Definition locked (m : mirror) : bool :=
  match m !! "_attributes_locked" with
  | Some o => truthy o
  | None => false
  end.


(** The handle bound to [attr], if a handle is bound to it. *)
Definition handle_at (m : mirror) (attr : string) : option RemoteParameter :=
  match m !! attr with
  | Some (OParam p) => Some p
  | _ => None
  end.

(** The callbacks registered for [n]. *)
Definition callbacks_of (m : mirror) (n : string) : list callback :=
  match m !! "_callbacks" with
  | Some (ODict d) => default [] (d !! n)
  | _ => []
  end.

(** The handle [p], bound to [k], after the cache loop has run over
    [queue]. *)
Fixpoint cached_after (k : string) (p : RemoteParameter)
    (queue : list (string * pyval)) : RemoteParameter :=
  match queue with
  | [] => p
  | (n, v) :: queue' =>
      cached_after k
        (if decide (n = k) then
           if use_cache p then update_cache p v else p
         else p)
        queue'
  end.

(** The state after the cache loop has run over [queue]. *)
Definition caches_after (m : mirror) (queue : list (string * pyval)) (k : string)
  : option pyobj :=
  match m !! k with
  | Some (OParam p) => Some (OParam (cached_after k p queue))
  | o => o
  end.

(** The cache writes a batch causes, in the order of the batch. *)
Definition cache_updates (m : mirror) (queue : list (string * pyval)) : list event :=
  flat_map (λ '(n, v),
    match handle_at m n with
    | Some p => if use_cache p then [UpdateCache n v] else []
    | None => []
    end) queue.

(** The callback invocations a batch causes, in the order of the batch and,
    for one entry, in the order of registration. *)
Definition callback_calls (m : mirror) (queue : list (string * pyval)) : list event :=
  flat_map (λ '(n, v), (λ cb, Callback cb v) <$> callbacks_of m n) queue.

(** The most recent value for [n] in a batch. *)
Fixpoint latest (n : string) (queue : list (string * pyval)) : option pyval :=
  match queue with
  | [] => None
  | (n', v) :: queue' =>
      match latest n queue' with
      | Some w => Some w
      | None => if decide (n' = n) then Some v else None
      end
  end.

(** Events other than cache writes and callback invocations. *)
Definition control (e : event) : Prop :=
  match e with
  | UpdateCache _ _ | Callback _ _ => False
  | _ => True
  end.


Definition registration_delta (e : event) : Z :=
  match e with
  | AsyncRegisterRemoteListeners _ _ => 1
  | ListenerRegistered => -1
  | _ => 0
  end.

Definition outstanding (delta : event → Z) (t : list event) : Z :=
  foldr (λ e n, (delta e + n)%Z) 0%Z t.

(** A trace keeps the number of outstanding calls, [n] before it, between
    zero and one at every step. *)
Fixpoint within (delta : event → Z) (n : Z) (t : list event) : Prop :=
  match t with
  | [] => True
  | e :: t' => (0 ≤ n + delta e ≤ 1)%Z ∧ within delta (n + delta e) t'
  end.

(** The attributes the blocks of a poll assign to. *)
Definition marker_attr (k : string) : Prop :=
  k = "_async_changed_parameters_queue" ∨
  k = "_async_listener_registering" ∨
  k = "_listeners_pending_remote_registration".

(** [m'] has the handles of [m], unchanged, and differs from [m] at most in
    the markers and the pending list. *)
Definition untouched (m m' : mirror) : Prop :=
  (∀ k, handle_at m' k = handle_at m k) ∧
  (∀ k, ¬ marker_attr k → m' !! k = m !! k).

(** [m'] has a handle wherever [m] has one, and the same object as [m]
    elsewhere, except for the markers and the pending list. *)
Definition keeps (m m' : mirror) : Prop :=
  ∀ k, match m !! k with
       | Some (OParam _) => is_Some (handle_at m' k)
       | o => ¬ marker_attr k → m' !! k = o
       end.

(** The link between the fetch marker and the number [n] of outstanding
    fetches: a fetch is outstanding exactly when the marker holds its
    [AsyncResult], and then the connection it was issued through is in
    place. *)
Definition fetch_inv (m : mirror) (n : Z) : Prop :=
  (m !! "_async_changed_parameters_queue" = Some (OAsync GetChangedParametersQueue) ∧
   n = 1%Z ∧ m !! "remote" = Some ORemote ∧ is_Some (m !! "uuid")) ∨
  ((∀ c, m !! "_async_changed_parameters_queue" ≠ Some (OAsync c)) ∧ n = 0%Z).

(** The link between the registration marker and the number [n] of
    outstanding registrations. *)
Definition registration_inv (m : mirror) (n : Z) : Prop :=
  ((∃ c, m !! "_async_listener_registering" = Some (OAsync c)) ∧ n = 1%Z) ∨
  ((∀ c, m !! "_async_listener_registering" ≠ Some (OAsync c)) ∧ n = 0%Z).

(** A computation moves the monitor of the calls counted by [delta] along:
    from a state and a count linked by [J], its trace keeps the count within
    bounds and ends in a state linked to the new count. *)
Definition monitored {A} (delta : event → Z) (J : mirror → Z → Prop)
    (c : M A) : Prop :=
  ∀ m n, J m n →
    within delta n (c m).2 ∧ J (c m).1.2 (n + outstanding delta (c m).2)%Z.


(** A small mirror: the one built from the inventory of the specification's
    scenario, with nothing arrived during the first poll. *)
Definition scenario_inventory : list inventory_entry :=
  [("speed", VInt 10, true, false, false);
   ("status", VStr "idle", false, false, false)].

Definition quiet_net : net :=
  {| changed_parameters_queue := None; listener_registering_ready := false |}.

Definition scenario_mirror : mirror :=
  (construct "uuid-1" true scenario_inventory quiet_net).1.2.

(** The same mirror with a callback dictionary filled in, a batch for it and
    a connection that delivers the batch. *)
Definition scenario_listening : mirror :=
  <["_callbacks" := ODict (<["speed" := [1; 2]%nat]> (<["status" := [3%nat]]> ∅))]>
    scenario_mirror.

Definition scenario_batch : list (string * pyval) :=
  [("speed", VInt 11); ("status", VStr "locked"); ("speed", VInt 12)].

Definition scenario_net : net :=
  {| changed_parameters_queue := Some scenario_batch;
     listener_registering_ready := true |}.



(** ** Further operations and notions *)

(** [r.<attr>.reset()] *)
Definition reset_parameter (attr : string) : M unit :=
  p <~ handle attr;
  reset p.

(** The name of an entry of the inventory, and the handle [__init__] leaves
    for it: created by [RemoteParameter(...)] and, if it uses the cache,
    given the entry's value by [update_cache]. *)
Definition entry_name (entry : inventory_entry) : string := entry.1.1.1.1.

Definition handle_of (use_cache_arg : bool) (entry : inventory_entry) : RemoteParameter :=
  let '(n, v, can_be_cached, restorable_arg, loggable_arg) := entry in
  {| name := n; use_cache := use_cache_arg && can_be_cached;
     restorable := restorable_arg; loggable := loggable_arg;
     _cached_value := if use_cache_arg && can_be_cached then Some v else None |}.

(** Every handle of the mirror is bound to the attribute of its own name,
    has a cached value exactly if it uses the cache, and uses the cache only
    if the mirror was built with [use_cache]. *)
Definition handles_well_formed (use_cache_arg : bool) (m : mirror) : Prop :=
  ∀ k p, handle_at m k = Some p →
    name p = k ∧
    (use_cache p = true → use_cache_arg = true ∧ is_Some (_cached_value p)) ∧
    (use_cache p = false → _cached_value p = None).

(** No registration is outstanding and no name is pending. *)
Definition nothing_to_register (m : mirror) : Prop :=
  m !! "_async_listener_registering" = Some (OVal VNone) ∧
  m !! "_listeners_pending_remote_registration" = Some (OList []).

(** The attributes [__init__] has bound when it asks for the inventory. *)
Definition init_state (uuid : string) : mirror :=
  <["_callbacks" := ODict ∅]>
    (<["_listeners_pending_remote_registration" := OList []]>
       (<["_async_listener_registering" := OVal VNone]>
          (<["_async_changed_parameters_queue" := OVal VNone]>
             (<["uuid" := OVal (VStr uuid)]> (<["remote" := ORemote]> ∅))))).

(** The mirror built from the same inventory with [use_cache] off. *)
Definition uncached_mirror : mirror :=
  (construct "uuid-2" false scenario_inventory quiet_net).1.2.

End RemoteParameters.

(** * acquisition/controller.py *)

Module Controller.

(** [class AcquisitionProcessSignals(Enum)] *)
Inductive AcquisitionProcessSignals :=
| SHUTDOWN
| SET_SWEEP_SPEED
| SET_LOCK_STATUS
| SET_CSR
| SET_IIR_CSR
| PAUSE_ACQUISIITON
| CONTINUE_ACQUISITION
| FETCH_QUADRATURES
| SET_RAW_ACQUISITION
| SET_DUAL_CHANNEL.

#[global] Instance AcquisitionProcessSignals_eq_dec :
  EqDecision AcquisitionProcessSignals.
Proof. solve_decision. Defined.

(** The values of the enumeration's members.  Members with equal values
    would be aliases of one member; see [signal_value_inj]. *)
Definition signal_value (s : AcquisitionProcessSignals) : Q :=
  match s with
  | SHUTDOWN => 0
  | SET_SWEEP_SPEED => 2
  | SET_LOCK_STATUS => 3
  | SET_CSR => 4
  | SET_IIR_CSR => 5
  | PAUSE_ACQUISIITON => 11 # 2
  | CONTINUE_ACQUISITION => 6
  | FETCH_QUADRATURES => 7
  | SET_RAW_ACQUISITION => 8
  | SET_DUAL_CHANNEL => 9
  end%Q.

(** A tuple sent through the pipe to the worker: [data[0]] is the signal,
    the remaining items follow. *)
Definition message : Type := AcquisitionProcessSignals * list pyval.

(** [data[1]] *)
Definition item1 (data : message) : outcome pyval :=
  match data.2 with
  | v :: _ => Ret v
  | [] => Raise IndexError
  end.

(** A string holds the UTF-8 bytes of a Python [str]; a byte [10xxxxxx]
    continues the character begun before it. *)
Definition continuation (c : Ascii.ascii) : bool :=
  match c with
  | Ascii.Ascii _ _ _ _ _ _ b6 b7 => b7 && negb b6
  end.

(** The characters of a string: [cur] is the character under way, [s] what
    follows it. *)
Fixpoint characters_from (cur : string) (s : string) : list string :=
  match s with
  | EmptyString => [cur]
  | String c s' =>
      if continuation c then characters_from (cur +:+ String c EmptyString) s'
      else cur :: characters_from (String c EmptyString) s'
  end.

Definition characters (s : string) : list string :=
  match s with
  | EmptyString => []
  | String c s' => characters_from (String c EmptyString) s'
  end.

(** [*v] in a call: the items of an iterable; a string gives its
    characters. *)
Definition unpack (v : pyval) : outcome (list pyval) :=
  match v with
  | VTuple l => Ret l
  | VStr s => Ret (VStr <$> characters s)
  | _ => Raise TypeError
  end.

(** The answer of [acquisition_service.exposed_return_data(last_hash)]. *)
Record return_data_reply := {
  new_data_returned : bool;
  new_hash : pyval;
  data_was_raw : pyval;
  new_data : pyval;
  data_uuid : pyval
}.

(** What the worker's loop does, in program order: the calls to the
    acquisition service and what it sends through the pipe.  [PipeSend]
    carries the frame [(data_was_raw, new_data, data_uuid)]; its first
    argument is the hash [exposed_return_data] gave for that frame, which is
    kept in [last_hash] and not sent. *)
Inductive worker_event :=
| SetSweepSpeed (speed : pyval)
| SetLockStatus (v : pyval)
| SetFetchAdditionalSignals (v : pyval)
| SetRawAcquisition (v : pyval)
| SetDualChannel (v : pyval)
| SetCsr (args : list pyval)
| SetIirCsr (args : list pyval)
| PauseAcquisition
| ContinueAcquisition (v : pyval)
| ReturnData (last_hash : pyval)
| PipeSend (h : pyval) (was_raw data uuid : pyval)
| Sleep.

(** The body of [while pipe.poll()]: one received tuple. *)
Definition dispatch (data : message) : outcome unit * list worker_event :=
  match data.1 with
  | SHUTDOWN => (Raise SystemExit, [])
  | SET_SWEEP_SPEED =>
      match item1 data with
      | Ret speed => (Ret tt, [SetSweepSpeed speed])
      | Raise e => (Raise e, [])
      end
  | SET_LOCK_STATUS =>
      match item1 data with
      | Ret v => (Ret tt, [SetLockStatus v])
      | Raise e => (Raise e, [])
      end
  | FETCH_QUADRATURES =>
      match item1 data with
      | Ret v => (Ret tt, [SetFetchAdditionalSignals v])
      | Raise e => (Raise e, [])
      end
  | SET_RAW_ACQUISITION =>
      match item1 data with
      | Ret v => (Ret tt, [SetRawAcquisition v])
      | Raise e => (Raise e, [])
      end
  | SET_DUAL_CHANNEL =>
      match item1 data with
      | Ret v => (Ret tt, [SetDualChannel v])
      | Raise e => (Raise e, [])
      end
  | SET_CSR =>
      match item1 data with
      | Ret v =>
          match unpack v with
          | Ret args => (Ret tt, [SetCsr args])
          | Raise e => (Raise e, [])
          end
      | Raise e => (Raise e, [])
      end
  | SET_IIR_CSR =>
      match item1 data with
      | Ret v =>
          match unpack v with
          | Ret args => (Ret tt, [SetIirCsr args])
          | Raise e => (Raise e, [])
          end
      | Raise e => (Raise e, [])
      end
  | PAUSE_ACQUISIITON => (Ret tt, [PauseAcquisition])
  | CONTINUE_ACQUISITION =>
      match item1 data with
      | Ret v => (Ret tt, [ContinueAcquisition v])
      | Raise e => (Raise e, [])
      end
  end.

(** [while pipe.poll(): data = pipe.recv(); ...] on the tuples [cmds] the
    pipe holds during this drain. *)
Fixpoint drain (cmds : list message) : outcome unit * list worker_event :=
  match cmds with
  | [] => (Ret tt, [])
  | data :: cmds' =>
      match dispatch data with
      | (Ret _, t1) =>
          match drain cmds' with (o, t2) => (o, t1 ++ t2) end
      | (Raise e, t1) => (Raise e, t1)
      end
  end.

(** The second half of the loop body: load acquired data and send it to the
    main thread.  Returns the new [last_hash]. *)
Definition load_and_send (last_hash : pyval) (return_data : pyval → return_data_reply)
  : pyval * list worker_event :=
  let r := return_data last_hash in
  if new_data_returned r then
    (new_hash r,
     [ReturnData last_hash;
      PipeSend (new_hash r) (data_was_raw r) (new_data r) (data_uuid r);
      Sleep])
  else (last_hash, [ReturnData last_hash; Sleep]).

(** What the worker meets in one iteration of its outer loop: the tuples it
    receives while draining the pipe, and how its acquisition service
    answers [exposed_return_data]. *)
Record tick := {
  commands : list message;
  return_data : pyval → return_data_reply
}.

(** One iteration of [while True]. *)
Definition iteration (last_hash : pyval) (k : tick)
  : outcome pyval * list worker_event :=
  match drain (commands k) with
  | (Ret _, t1) =>
      match load_and_send last_hash (return_data k) with
      | (h, t2) => (Ret h, t1 ++ t2)
      end
  | (Raise e, t1) => (Raise e, t1)
  end.

(** The loop [while True] of [connect_acquisition_service], entered with
    [last_hash = None] once the worker has its acquisition service and has
    told the supervisor so, over the iterations [script] describes.
    [Ret last_hash]: the loop is still running after them; [Raise e]: it
    was left by the exception [e]. *)
Fixpoint worker_loop (last_hash : pyval) (script : list tick)
  : outcome pyval * list worker_event :=
  match script with
  | [] => (Ret last_hash, [])
  | k :: script' =>
      match iteration last_hash k with
      | (Ret h, t1) =>
          match worker_loop h script' with (o, t2) => (o, t1 ++ t2) end
      | (Raise e, t1) => (Raise e, t1)
      end
  end.

(** ** The supervisor *)

(** The supervisor's end of the pipe: the tuples written to it that the
    worker has not received yet, or, once the worker's process has ended
    and its end of the pipe with it, a connection whose peer is closed. *)
Inductive connection :=
| Connected (unread : list message)
| PeerClosed.

(** What the attribute [parent_conn] holds: a connection, or [None].  Where
    a [pipe_end] is expected, a list of tuples stands for the open
    connection that holds them. *)
Definition pipe_end : Type := option connection.

Definition written (sent : option (list message)) : pipe_end :=
  match sent with
  | Some unread => Some (Connected unread)
  | None => None
  end.

#[warning="-uniform-inheritance"] Coercion written : option >-> pipe_end.

(** [AcquisitionController] *)
Record AcquisitionController := {
  parent_conn : pipe_end
}.

(** What the supervisor does outside the pipe. *)
Inductive controller_event :=
| StartProcess
| RecvReady
| StartReceiveThread
| AtexitRegister
| StartNginx.

Definition ctl (A : Type) : Type :=
  AcquisitionController → outcome A * AcquisitionController * list controller_event.

(** [self.parent_conn.send(data)]: writing to a connection whose peer is
    closed raises [BrokenPipeError]. *)
Definition send (data : message) : ctl unit := λ c,
  match parent_conn c with
  | Some (Connected unread) =>
      (Ret tt, {| parent_conn := Some (Connected (unread ++ [data])) |}, [])
  | Some PeerClosed => (Raise BrokenPipeError, c, [])
  | None => (Raise AttributeError, c, [])
  end.

(** [if self.parent_conn: self.parent_conn.send(data)] *)
Definition send_if_connected (data : message) : ctl unit := λ c,
  match parent_conn c with
  | Some _ => send data c
  | None => (Ret tt, c, [])
  end.

Definition pause_acquisition : ctl unit :=
  send (PAUSE_ACQUISIITON, [VBool true]).

Definition continue_acquisition (uuid : pyval) : ctl unit :=
  send (CONTINUE_ACQUISITION, [uuid]).

Definition shutdown : ctl unit := λ c,
  match send_if_connected (SHUTDOWN, []) c with
  | (Ret _, c1, t1) => (Ret tt, c1, t1 ++ [StartNginx])
  | (Raise e, c1, t1) => (Raise e, c1, t1)
  end.

Definition set_sweep_speed (speed : pyval) : ctl unit :=
  send (SET_SWEEP_SPEED, [speed]).

Definition set_lock_status (status : pyval) : ctl unit :=
  send_if_connected (SET_LOCK_STATUS, [status]).

Definition fetch_additional_signals (status : pyval) : ctl unit :=
  send_if_connected (FETCH_QUADRATURES, [status]).

Definition set_csr (key value : pyval) : ctl unit :=
  send (SET_CSR, [VTuple [key; value]]).

Definition set_iir_csr (args : list pyval) : ctl unit :=
  send (SET_IIR_CSR, [VTuple args]).

Definition set_raw_acquisition (enabled decimation : pyval) : ctl unit :=
  send (SET_RAW_ACQUISITION, [VTuple [enabled; decimation]]).

Definition set_dual_channel (enabled : pyval) : ctl unit :=
  send (SET_DUAL_CHANNEL, [enabled]).

(** A call of one of the supervisor's methods by its user. *)
Inductive method_call :=
| Call_pause_acquisition
| Call_continue_acquisition (uuid : pyval)
| Call_shutdown
| Call_set_sweep_speed (speed : pyval)
| Call_set_lock_status (status : pyval)
| Call_fetch_additional_signals (status : pyval)
| Call_set_csr (key value : pyval)
| Call_set_iir_csr (args : list pyval)
| Call_set_raw_acquisition (enabled decimation : pyval)
| Call_set_dual_channel (enabled : pyval).

Definition invoke (call : method_call) : ctl unit :=
  match call with
  | Call_pause_acquisition => pause_acquisition
  | Call_continue_acquisition uuid => continue_acquisition uuid
  | Call_shutdown => shutdown
  | Call_set_sweep_speed speed => set_sweep_speed speed
  | Call_set_lock_status status => set_lock_status status
  | Call_fetch_additional_signals status => fetch_additional_signals status
  | Call_set_csr key value => set_csr key value
  | Call_set_iir_csr args => set_iir_csr args
  | Call_set_raw_acquisition enabled decimation =>
      set_raw_acquisition enabled decimation
  | Call_set_dual_channel enabled => set_dual_channel enabled
  end.

(** The functions registered with [atexit]. *)
Inductive exitfunc :=
| Exit_shutdown.

(** The supervisor's process: the controller and the interpreter's list of
    exit functions. *)
Record process := {
  controller : AcquisitionController;
  exitfuncs : list exitfunc
}.

(** [AcquisitionController.__init__]: the pipe is created, the worker process
    started, its readiness awaited, the reader thread started and [shutdown]
    registered with [atexit]. *)
Definition __init__ : process * list controller_event :=
  ({| controller := {| parent_conn := Some (Connected []) |};
      exitfuncs := [Exit_shutdown] |},
   [StartProcess; RecvReady; StartReceiveThread; AtexitRegister]).

(** What happens while the supervisor lives: its user calls one of its
    methods; the worker comes round to its [while pipe.poll()] loop and
    receives what the pipe holds; or the worker's process ends for a reason
    of its own (an exception of its acquisition service, a signal). *)
Inductive moment :=
| User (call : method_call)
| WorkerDrains
| WorkerEnds.

(** The worker receives the tuples the pipe holds and dispatches them; its
    process ends, and its end of the pipe closes, when the loop is left by
    an exception. *)
Definition worker_drains (c : AcquisitionController)
  : AcquisitionController * list worker_event :=
  match parent_conn c with
  | Some (Connected unread) =>
      match drain unread with
      | (Ret _, t) => ({| parent_conn := Some (Connected []) |}, t)
      | (Raise _, t) => ({| parent_conn := Some PeerClosed |}, t)
      end
  | _ => (c, [])
  end.

Definition worker_ends (c : AcquisitionController) : AcquisitionController :=
  match parent_conn c with
  | Some _ => {| parent_conn := Some PeerClosed |}
  | None => c
  end.

(** The supervisor and its worker through a sequence of moments: the
    supervisor, what it did outside the pipe and what the worker did.  An
    exception raised by a method is caught by its caller. *)
Fixpoint run (ms : list moment) (c : AcquisitionController)
  : AcquisitionController * list controller_event * list worker_event :=
  match ms with
  | [] => (c, [], [])
  | User call :: ms' =>
      match invoke call c with
      | (_, c1, t1) =>
          match run ms' c1 with (c2, t2, w2) => (c2, t1 ++ t2, w2) end
      end
  | WorkerDrains :: ms' =>
      match worker_drains c with
      | (c1, w1) =>
          match run ms' c1 with (c2, t2, w2) => (c2, t2, w1 ++ w2) end
      end
  | WorkerEnds :: ms' => run ms' (worker_ends c)
  end.

(** The calls the user makes in a sequence of moments. *)
Fixpoint user_calls (ms : list moment) : list method_call :=
  match ms with
  | [] => []
  | User call :: ms' => call :: user_calls ms'
  | _ :: ms' => user_calls ms'
  end.

(** How the supervisor's process ends: the interpreter exits and runs the
    functions registered with [atexit] (return from the main module,
    [sys.exit], an unhandled exception), or the process is ended without
    them ([os._exit], a fatal signal). *)
Inductive termination :=
| InterpreterExit
| Killed.

(** [atexit]'s run of the registered functions at interpreter exit. *)
Fixpoint run_exitfuncs (fs : list exitfunc) (c : AcquisitionController)
  : AcquisitionController * list controller_event :=
  match fs with
  | [] => (c, [])
  | Exit_shutdown :: fs' =>
      match shutdown c with
      | (_, c1, t1) =>
          match run_exitfuncs fs' c1 with (c2, t2) => (c2, t1 ++ t2) end
      end
  end.

(** A lifetime of the supervisor: construction, what happens while it
    lives, the end of the process. *)
Definition lifetime (ms : list moment) (how : termination)
  : AcquisitionController * list controller_event :=
  match __init__ with
  | (p, t0) =>
      match run ms (controller p) with
      | (c1, t1, _) =>
          match how with
          | InterpreterExit =>
              match run_exitfuncs (rev (exitfuncs p)) c1 with
              | (c2, t2) => (c2, t0 ++ t1 ++ t2)
              end
          | Killed => (c1, t0 ++ t1)
          end
      end
  end.

(** ** Notions used in the statements *)

(** The nine tags the specification lists for a Command. *)
Definition spec_tags : list AcquisitionProcessSignals :=
  [SHUTDOWN; SET_SWEEP_SPEED; SET_LOCK_STATUS; SET_CSR; SET_IIR_CSR;
   PAUSE_ACQUISIITON; CONTINUE_ACQUISITION; SET_RAW_ACQUISITION;
   SET_DUAL_CHANNEL].

(** The worker-side effect that corresponds to a call of a supervisor
    method: the operation of the acquisition service with the call's
    arguments; for [shutdown], leaving the loop. *)
Definition operation (call : method_call) : outcome unit * list worker_event :=
  match call with
  | Call_pause_acquisition => (Ret tt, [PauseAcquisition])
  | Call_continue_acquisition uuid => (Ret tt, [ContinueAcquisition uuid])
  | Call_shutdown => (Raise SystemExit, [])
  | Call_set_sweep_speed speed => (Ret tt, [SetSweepSpeed speed])
  | Call_set_lock_status status => (Ret tt, [SetLockStatus status])
  | Call_fetch_additional_signals status =>
      (Ret tt, [SetFetchAdditionalSignals status])
  | Call_set_csr key value => (Ret tt, [SetCsr [key; value]])
  | Call_set_iir_csr args => (Ret tt, [SetIirCsr args])
  | Call_set_raw_acquisition enabled decimation =>
      (Ret tt, [SetRawAcquisition (VTuple [enabled; decimation])])
  | Call_set_dual_channel enabled => (Ret tt, [SetDualChannel enabled])
  end.

(** The hashes of the frames pushed to the supervisor, oldest first. *)
Fixpoint pushed (t : list worker_event) : list pyval :=
  match t with
  | [] => []
  | PipeSend h _ _ _ :: t' => h :: pushed t'
  | _ :: t' => pushed t'
  end.

(** The hash of the last delivered frame, [None] before the first. *)
Definition last_delivered (t : list worker_event) : pyval :=
  default VNone (last (pushed t)).

(** No two frames pushed one after the other have the same hash. *)
Definition coalesced (hs : list pyval) : Prop :=
  ∀ i a b, hs !! i = Some a → hs !! S i = Some b → a ≠ b.

(** The frames sent through the pipe, oldest first. *)
Fixpoint frames (t : list worker_event) : list (pyval * pyval * pyval) :=
  match t with
  | [] => []
  | PipeSend _ was_raw data uuid :: t' => (was_raw, data, uuid) :: frames t'
  | _ :: t' => frames t'
  end.

(** The data an acquisition service holds: its content hash, whether it is
    raw, the payload and the correlation id. *)
Record measurement := {
  content_hash : Z;
  is_raw : bool;
  payload : pyval;
  correlation_id : pyval
}.

(** Modelled from the spec: [AcquisitionService.exposed_return_data], which
    is not part of the sources at hand.  The specification gives it as
    "return_data(last_hash) -> (changed: bool, new_hash, is_raw, payload,
    correlation_id)", asked for "data since last_hash", with a frame emitted
    "only when its content-hash differs from the last delivered hash" and
    "two consecutive return_data calls with identical underlying data never
    both report changed = true".  [held] is the data the service holds when
    it is asked, if it holds any; [last_hash] is [None] or a hash the
    service gave before. *)
Definition exposed_return_data (held : option measurement) (last_hash : pyval)
  : return_data_reply :=
  let unchanged :=
    {| new_data_returned := false; new_hash := VNone; data_was_raw := VNone;
       new_data := VNone; data_uuid := VNone |} in
  match held with
  | Some d =>
      if match last_hash with
         | VInt h => Z.eqb h (content_hash d)
         | _ => false
         end
      then unchanged
      else {| new_data_returned := true; new_hash := VInt (content_hash d);
              data_was_raw := VBool (is_raw d); new_data := payload d;
              data_uuid := correlation_id d |}
  | None => unchanged
  end.

(** An iteration of the worker with such a service: the tuples it receives
    and the data its service holds. *)
Definition service_tick (k : list message * option measurement) : tick :=
  {| commands := k.1; return_data := exposed_return_data k.2 |}.

(** An answer that reports new data carries a hash different from the one
    asked with. *)
Definition return_data_contract (k : tick) : Prop :=
  ∀ last_hash,
    new_data_returned (return_data k last_hash) = true →
    new_hash (return_data k last_hash) ≠ last_hash.

(** How often the suspended service was started again. *)
Fixpoint restores (t : list controller_event) : nat :=
  match t with
  | [] => 0
  | StartNginx :: t' => S (restores t')
  | _ :: t' => restores t'
  end.

(** How often the user called [shutdown]. *)
Fixpoint shutdown_calls (cs : list method_call) : nat :=
  match cs with
  | [] => 0
  | Call_shutdown :: cs' => S (shutdown_calls cs')
  | _ :: cs' => shutdown_calls cs'
  end.

(** An acquisition service that always has a frame with hash [7]. *)
Definition steady_source (last_hash : pyval) : return_data_reply :=
  {| new_data_returned :=
       match last_hash with VInt 7 => false | _ => true end;
     new_hash := VInt 7; data_was_raw := VBool false;
     new_data := VStr "trace"; data_uuid := VInt 42 |}.

(** ** Further notions *)

(** What the worker does with the tuples of a sequence of calls, one drain:
    the operations of the calls in order, up to the first [shutdown]. *)
Fixpoint operations (cs : list method_call) : outcome unit * list worker_event :=
  match cs with
  | [] => (Ret tt, [])
  | call :: cs' =>
      match operation call with
      | (Ret _, t1) =>
          match operations cs' with (o, t2) => (o, t1 ++ t2) end
      | (Raise e, t1) => (Raise e, t1)
      end
  end.

(** Tuples the worker dispatches without leaving its loop: those of the
    methods other than [shutdown]. *)
Definition harmless (unread : list message) : Prop :=
  Forall (λ data, ∃ t, dispatch data = (Ret tt, t)) unread.

(** The worker is in step with the calls [cs] made so far: what it has
    done, [w], followed by what it will do with the tuples the pipe holds,
    is what the calls ask for, in their order; once it has left, what it
    has done is the beginning of that, and all of it up to the call that
    made it leave unless its process ended by itself ([ended]). *)
Definition in_step (ended : Prop) (c : AcquisitionController)
    (w : list worker_event) (cs : list method_call) : Prop :=
  match parent_conn c with
  | Some (Connected unread) =>
      match drain unread with (o, t) => (o, w ++ t) end = operations cs
  | Some PeerClosed =>
      w `prefix_of` (operations cs).2 ∧
      (¬ ended → ∃ e, operations cs = (Raise e, w))
  | None => False
  end.

(** How often the worker slept, and how often it asked for data. *)
Fixpoint sleeps (t : list worker_event) : nat :=
  match t with
  | [] => 0
  | Sleep :: t' => S (sleeps t')
  | _ :: t' => sleeps t'
  end.

Fixpoint pulls (t : list worker_event) : nat :=
  match t with
  | [] => 0
  | ReturnData _ :: t' => S (pulls t')
  | _ :: t' => pulls t'
  end.

(** The tags whose branch in the loop reads [data[1]]. *)
Definition needs_payload (tag : AcquisitionProcessSignals) : bool :=
  match tag with
  | SHUTDOWN | PAUSE_ACQUISIITON => false
  | _ => true
  end.

End Controller.

(** * gateware/fpga_image_helper.py *)

Module FpgaImageHelper.

(** What [get_csrmap] reads of a CSR: its name, its size in bits and whether
    it has an attribute [status]. *)
Record csr := {
  csr_name : string;
  csr_size : Z;
  csr_has_status : bool
}.

(** An item of [banks]: the tuple [(name, csrs, map_addr, rmap)]. *)
Record bank := {
  bank_name : string;
  bank_csrs : list csr;
  bank_map_addr : Z;
  bank_rmap : pyval
}.

(** A list [get_csrmap] yields:
    [[name, csr.name, map_addr, reg_addr, csr.size, not hasattr(csr, "status")]]. *)
Record reg := {
  reg_bank : string;
  reg_name : string;
  reg_map_addr : Z;
  reg_addr : Z;
  reg_size : Z;
  reg_writable : bool
}.

(** The inner loop of [get_csrmap], entered with [reg_addr = addr]. *)
Fixpoint bank_regs (b : bank) (addr : Z) (csrs : list csr) : list reg :=
  match csrs with
  | [] => []
  | c :: csrs' =>
      {| reg_bank := bank_name b; reg_name := csr_name c;
         reg_map_addr := bank_map_addr b; reg_addr := addr;
         reg_size := csr_size c; reg_writable := negb (csr_has_status c) |}
      :: bank_regs b (addr + (csr_size c + 8 - 1) / 8)%Z csrs'
  end.

(** [get_csrmap]: what the generator yields, in order. *)
Definition get_csrmap (banks : list bank) : list reg :=
  flat_map (λ b, bank_regs b 0%Z (bank_csrs b)) banks.

(** The bytes a register takes: from its address up to the next one. *)
Definition reg_bytes (r : reg) : Z := ((reg_size r + 8 - 1) / 8)%Z.

(** A bank with registers of 1, 8, 14 and 32 bits. *)
Definition example_bank : bank :=
  {| bank_name := "logic";
     bank_csrs :=
       [{| csr_name := "hold"; csr_size := 1; csr_has_status := false |};
        {| csr_name := "gain"; csr_size := 8; csr_has_status := false |};
        {| csr_name := "adc"; csr_size := 14; csr_has_status := true |};
        {| csr_name := "count"; csr_size := 32; csr_has_status := true |}];
     bank_map_addr := 5; bank_rmap := VNone |}.

End FpgaImageHelper.

(** * server/optimization/optimization.py *)

Module Optimization.

Section Numbers.

(** The numbers of [convert_params] with their [+], [-] and [*]; the
    function uses nothing else of them. *)
Variable num : Type.
Variables add sub mul : num → num → num.

(** [convert_params]: [zip] ends with the shortest of its arguments. *)
Fixpoint convert_params (params xmin xmax : list num) : list num :=
  match params, xmin, xmax with
  | v :: params', min_ :: xmin', max_ :: xmax' =>
      add min_ (mul v (sub max_ min_)) :: convert_params params' xmin' xmax'
  | _, _, _ => []
  end.

End Numbers.

(** [is_centering_iteration], on an integer. *)
Definition is_centering_iteration (iteration : Z) : bool :=
  (iteration mod 10 =? 0)%Z && (iteration >? 0)%Z.

End Optimization.

(** * gateware/targets/red_pitaya.py *)

Module RedPitaya.

(** [PitayaSoC.csr_map] *)
Definition csr_map : gmap string Z :=
  <["gpio_n" := 30%Z]> (<["gpio_p" := 31%Z]> (<["dna" := 28%Z]>
    (<["xadc" := 29%Z]> ∅))).

(** [PitayaSoC.get_csr_dev_address].  [memory] is [None] or the
    [name_override] of the memory; the result is [None] where the source
    catches [KeyError]. *)
Definition get_csr_dev_address (name : string) (memory : option string)
  : option Z :=
  let name :=
    match memory with
    | Some name_override => name +:+ "_" +:+ name_override
    | None => name
    end in
  csr_map !! name.

End RedPitaya.

(** * Properties of the acquisition supervisor and its worker *)

Section Worker.
Import Controller.

Lemma signal_value_inj (a b : AcquisitionProcessSignals) :
  (signal_value a == signal_value b)%Q → a = b.
Proof. destruct a, b; simpl; intros H; try reflexivity; discriminate H. Qed.

Lemma drain_app (cmds1 cmds2 : list message) t1 :
  drain cmds1 = (Ret tt, t1) →
  drain (cmds1 ++ cmds2) =
    match drain cmds2 with (o, t2) => (o, t1 ++ t2) end.
Proof.
  revert t1. induction cmds1 as [|data cmds1 IH]; intros t1 H; simpl in *.
  - injection H as <-. by destruct (drain cmds2).
  - destruct (dispatch data) as [[[]|e] td]; [|discriminate].
    destruct (drain cmds1) as [[[]|e] t1'] eqn:E; [|congruence].
    injection H as <-. rewrite (IH _ eq_refl).
    destruct (drain cmds2). by rewrite app_assoc.
Qed.

Lemma drain_shutdown (args : list pyval) (cmds : list message) :
  drain ((SHUTDOWN, args) :: cmds) = (Raise SystemExit, []).
Proof. reflexivity. Qed.

Lemma worker_loop_app lh (pre post : list tick) lh1 t0 :
  worker_loop lh pre = (Ret lh1, t0) →
  worker_loop lh (pre ++ post) =
    match worker_loop lh1 post with (o, t) => (o, t0 ++ t) end.
Proof.
  revert lh t0. induction pre as [|k pre IH]; intros lh t0 H; simpl in *.
  - injection H as <- <-. by destruct (worker_loop lh post).
  - destruct (iteration lh k) as [[h|e] tk]; [|discriminate].
    destruct (worker_loop h pre) as [[h'|e] t'] eqn:E; [|congruence].
    injection H as <- <-. rewrite (IH _ _ E).
    destruct (worker_loop h' post). by rewrite app_assoc.
Qed.

(** C5. When the worker receives the shutdown command its loop is left by
    [SystemExit] at once: the trace of the whole run is the trace up to
    that command, whatever commands follow it in the pipe, whatever the
    acquisition service would have answered and whatever later iterations
    would have met; so no later command is dispatched, no data is pulled
    and no frame is pushed after it. *)
Theorem shutdown_leaves_loop lh (pre : list tick) lh1 t0
    (cmds1 : list message) t1 (args : list pyval) (cmds2 : list message)
    (rd : pyval → return_data_reply) (post : list tick) :
  worker_loop lh pre = (Ret lh1, t0) →
  drain cmds1 = (Ret tt, t1) →
  worker_loop lh
    (pre ++ {| commands := cmds1 ++ (SHUTDOWN, args) :: cmds2;
               return_data := rd |} :: post)
  = (Raise SystemExit, t0 ++ t1).
Proof.
  intros Hpre Hd. rewrite (worker_loop_app _ _ _ _ _ Hpre). simpl.
  unfold iteration. simpl. rewrite (drain_app _ _ _ Hd), drain_shutdown.
  by rewrite app_nil_r.
Qed.

Lemma shutdown_leaves_loop_witness :
  worker_loop VNone
    ([{| commands := [(PAUSE_ACQUISIITON, [VBool true])];
         return_data := steady_source |}] ++
     {| commands := [(CONTINUE_ACQUISITION, [VInt 42])] ++
                    (SHUTDOWN, []) :: [(SET_SWEEP_SPEED, [VInt 3])];
        return_data := steady_source |} ::
     [{| commands := [(SET_DUAL_CHANNEL, [VBool true])];
         return_data := steady_source |}])
  = (Raise SystemExit,
     [PauseAcquisition; ReturnData VNone;
      PipeSend (VInt 7) (VBool false) (VStr "trace") (VInt 42); Sleep] ++
     [ContinueAcquisition (VInt 42)]).
Proof.
  apply (shutdown_leaves_loop VNone _ (VInt 7)); reflexivity.
Defined.

Lemma pushed_app (t1 t2 : list worker_event) :
  pushed (t1 ++ t2) = pushed t1 ++ pushed t2.
Proof.
  induction t1 as [|e t1 IH]; [done|].
  destruct e; simpl; by rewrite ?IH.
Qed.

Lemma pushed_dispatch (data : message) o t :
  dispatch data = (o, t) → pushed t = [].
Proof.
  unfold dispatch. intros H.
  destruct data.1; repeat case_match; by simplify_eq.
Qed.

Lemma pushed_drain (cmds : list message) o t :
  drain cmds = (o, t) → pushed t = [].
Proof.
  revert o t. induction cmds as [|data cmds IH]; intros o t H; simpl in H.
  - by simplify_eq.
  - destruct (dispatch data) as [[[]|e] td] eqn:Ed.
    + destruct (drain cmds) as [o' t'] eqn:E. simplify_eq.
      by rewrite pushed_app, (pushed_dispatch _ _ _ Ed), (IH _ _ eq_refl).
    + simplify_eq. by apply pushed_dispatch in Ed.
Qed.

Lemma frames_app (t1 t2 : list worker_event) :
  frames (t1 ++ t2) = frames t1 ++ frames t2.
Proof.
  induction t1 as [|e t1 IH]; [done|].
  destruct e; simpl; by rewrite ?IH.
Qed.

Lemma frames_drain (cmds : list message) o t :
  drain cmds = (o, t) → frames t = [].
Proof.
  revert o t. induction cmds as [|data cmds IH]; intros o t H; simpl in H.
  - by simplify_eq.
  - assert (∀ od td, dispatch data = (od, td) → frames td = []) as Hd.
    { unfold dispatch. intros od td Hd.
      destruct data.1; repeat case_match; by simplify_eq. }
    destruct (dispatch data) as [[[]|e] td] eqn:Ed.
    + destruct (drain cmds) as [o' t'] eqn:E. simplify_eq.
      by rewrite frames_app, (Hd _ _ eq_refl), (IH _ _ eq_refl).
    + simplify_eq. by apply (Hd _ _ eq_refl).
Qed.

(** The frame an iteration sends. *)
Lemma iteration_frames lh (k : tick) h t :
  iteration lh k = (Ret h, t) →
  frames t =
    if new_data_returned (return_data k lh)
    then [(data_was_raw (return_data k lh), new_data (return_data k lh),
           data_uuid (return_data k lh))]
    else [].
Proof.
  unfold iteration, load_and_send.
  destruct (drain (commands k)) as [[[]|e] t1] eqn:E; [|done].
  apply frames_drain in E.
  destruct (new_data_returned _); intros ?; simplify_eq;
    by rewrite frames_app, E.
Qed.

(** What one iteration pushes and how it leaves [last_hash]. *)
Lemma iteration_pushed lh (k : tick) :
  match iteration lh k with
  | (Ret h, t) =>
      if new_data_returned (return_data k lh)
      then pushed t = [new_hash (return_data k lh)] ∧
           h = new_hash (return_data k lh)
      else pushed t = [] ∧ h = lh
  | (Raise _, t) => pushed t = []
  end.
Proof.
  unfold iteration, load_and_send.
  destruct (drain (commands k)) as [[[]|e] t1] eqn:E;
    apply pushed_drain in E; [|done].
  destruct (new_data_returned _); rewrite pushed_app, E; done.
Qed.

Lemma coalesced_cons (a b : pyval) (hs : list pyval) :
  a ≠ b → coalesced (b :: hs) → coalesced (a :: b :: hs).
Proof.
  intros Hab H [|i] x y Hx Hy; simpl in *.
  - by simplify_eq.
  - by apply (H i).
Qed.

Lemma coalesced_single (a : pyval) : coalesced [a].
Proof. intros [|i] x y Hx Hy; simpl in *; done. Qed.

Lemma coalesced_tail (a : pyval) (hs : list pyval) :
  coalesced (a :: hs) → coalesced hs.
Proof. intros H i x y Hx Hy. by apply (H (S i)). Qed.

(** The loop started with [lh] in [last_hash]: the hashes pushed, seen after
    [lh], never repeat one after the other, and [last_hash] ends as the last
    of them. *)
Lemma worker_loop_pushed lh (script : list tick) o t :
  Forall return_data_contract script →
  worker_loop lh script = (o, t) →
  coalesced (lh :: pushed t).
Proof.
  revert lh o t. induction script as [|k script IH]; intros lh o t Hc H;
    simpl in H.
  - simplify_eq. apply coalesced_single.
  - apply Forall_cons in Hc as [Hk Hc].
    pose proof (iteration_pushed lh k) as Hit.
    destruct (iteration lh k) as [[h|e] tk].
    + destruct (worker_loop h script) as [o' t'] eqn:E. simplify_eq.
      specialize (IH _ _ _ Hc E). rewrite pushed_app.
      destruct (new_data_returned _) eqn:En; destruct Hit as [-> ->]; simpl.
      * apply coalesced_cons; [|done]. intros Heq. by apply (Hk lh).
      * done.
    + simplify_eq. rewrite Hit. apply coalesced_single.
Qed.

Lemma worker_loop_last_hash lh (script : list tick) h t :
  worker_loop lh script = (Ret h, t) →
  h = default lh (last (pushed t)).
Proof.
  revert lh h t. induction script as [|k script IH]; intros lh h t H;
    simpl in H.
  - by simplify_eq.
  - pose proof (iteration_pushed lh k) as Hit.
    destruct (iteration lh k) as [[h1|e] tk]; [|done].
    destruct (worker_loop h1 script) as [o' t'] eqn:E. simplify_eq.
    rewrite (IH _ _ _ E), pushed_app.
    destruct (new_data_returned _); destruct Hit as [-> ->]; simpl.
    + rewrite last_cons. by destruct (last (pushed t')).
    + done.
Qed.

Lemma exposed_return_data_contract (k : list message * option measurement) :
  return_data_contract (service_tick k).
Proof.
  intros lh. destruct k as [cmds [d|]]; simpl; [|done].
  destruct lh as [| |h| |]; simpl; try done.
  destruct (Z.eqb_spec h (content_hash d)) as [->|Hne]; simpl; [done|].
  intros _ Heq. by simplify_eq.
Qed.

(** The loop itself compares no hashes: with a service that reports new
    data under the hash it was asked with, the same hash is pushed twice. *)
Lemma loop_relies_on_service :
  let k := {| commands := [];
              return_data := λ _,
                {| new_data_returned := true; new_hash := VInt 7;
                   data_was_raw := VBool false; new_data := VStr "trace";
                   data_uuid := VInt 42 |} |} in
  pushed (worker_loop VNone [k; k]).2 = [VInt 7; VInt 7].
Proof. reflexivity. Qed.

(** C6. In an iteration that gets as far as the data pull, a frame is pushed
    if and only if [exposed_return_data(last_hash)] reports new data; the
    frame is the one of the answer, [(data_was_raw, new_data, data_uuid)],
    and [last_hash] becomes the answer's hash exactly then (otherwise both
    the pipe and [last_hash] are left alone); hence, while the loop runs,
    [last_hash] is the hash of the last frame delivered ([None] before the
    first).  The loop leaves the comparison of hashes to the service: with
    the service as the specification has it, over any sequence of tuples
    received and data held, no frame is pushed under the hash of the frame
    delivered before it. *)
Theorem frames_follow_last_hash :
  (∀ lh (k : tick) h t,
     iteration lh k = (Ret h, t) →
     (pushed t ≠ [] ↔ new_data_returned (return_data k lh) = true) ∧
     (new_data_returned (return_data k lh) = true →
        pushed t = [new_hash (return_data k lh)] ∧
        frames t = [(data_was_raw (return_data k lh),
                     new_data (return_data k lh),
                     data_uuid (return_data k lh))] ∧
        h = new_hash (return_data k lh)) ∧
     (new_data_returned (return_data k lh) = false →
        pushed t = [] ∧ frames t = [] ∧ h = lh)) ∧
  (∀ (script : list tick) h t,
     worker_loop VNone script = (Ret h, t) → h = last_delivered t) ∧
  (∀ (ks : list (list message * option measurement)),
     coalesced (pushed (worker_loop VNone (service_tick <$> ks)).2)).
Proof.
  split; [|split].
  - intros lh k h t H. pose proof (iteration_pushed lh k) as Hit.
    pose proof (iteration_frames lh k h t H) as Hf.
    rewrite H in Hit.
    destruct (new_data_returned _); destruct Hit as [-> ->]; naive_solver.
  - intros script h t H. by apply worker_loop_last_hash in H.
  - intros ks.
    destruct (worker_loop VNone (service_tick <$> ks)) as [o t] eqn:E.
    apply coalesced_tail with VNone. eapply worker_loop_pushed; [|exact E].
    apply Forall_fmap, Forall_forall. intros k _.
    apply exposed_return_data_contract.
Qed.

Lemma frames_follow_last_hash_witness :
  let d7 := {| content_hash := 7; is_raw := false; payload := VStr "trace";
               correlation_id := VInt 42 |} in
  let d8 := {| content_hash := 8; is_raw := true; payload := VStr "raw";
               correlation_id := VInt 43 |} in
  let ks := [([(SET_CSR, [VTuple [VStr "gpio"; VInt 1]])], Some d7);
             ([], Some d7); ([], None); ([], Some d8); ([], Some d7)] in
  pushed (worker_loop VNone (service_tick <$> ks)).2 =
    [VInt 7; VInt 8; VInt 7] ∧
  frames (worker_loop VNone (service_tick <$> ks)).2 =
    [(VBool false, VStr "trace", VInt 42); (VBool true, VStr "raw", VInt 43);
     (VBool false, VStr "trace", VInt 42)] ∧
  (pushed (iteration (VInt 7) (service_tick ([], Some d7))).2 ≠ [] ↔
     new_data_returned
       (return_data (service_tick ([], Some d7)) (VInt 7)) = true) ∧
  VInt 7 = last_delivered (worker_loop VNone (service_tick <$> ks)).2 ∧
  coalesced (pushed (worker_loop VNone (service_tick <$> ks)).2).
Proof.
  intros d7 d8 ks.
  destruct frames_follow_last_hash as (H1 & H2 & H3).
  split_and!.
  - reflexivity.
  - reflexivity.
  - apply (H1 (VInt 7) (service_tick ([], Some d7)) (VInt 7)). reflexivity.
  - apply (H2 (service_tick <$> ks)). reflexivity.
  - apply (H3 ks).
Defined.

End Worker.

Section Supervisor.
Import Controller.

(** C7, as stated, fails: [fetch_additional_signals] sends a tuple tagged
    [FETCH_QUADRATURES], which is none of the nine tags. *)
Lemma issued_tags_not_only_nine :
  ¬ (∀ (call : method_call) (sent : list message) c t (data : message),
       invoke call {| parent_conn := Some sent |} = (Ret tt, c, t) →
       parent_conn c = Some (sent ++ [data]) →
       data.1 ∈ spec_tags).
Proof.
  intros H.
  specialize (H (Call_fetch_additional_signals (VBool true)) [] _ _
                (FETCH_QUADRATURES, [VBool true]) eq_refl eq_refl).
  simpl in H. revert H. compute_done.
Qed.

(** C7, amended.  Every command-issuing method of the supervisor, called on
    a supervisor with its connection, sends exactly one tuple and has no
    other effect, except [shutdown], which also starts the suspended service
    again; the tuple's tag is one of the nine listed ones or, for
    [fetch_additional_signals], [FETCH_QUADRATURES]; the worker dispatches
    the tuple to the operation that corresponds to the call; and each of the
    ten members of the enumeration is the tag sent by one of the methods. *)
Theorem issued_tags_and_dispatch :
  (∀ (call : method_call) (sent : list message),
     ∃ (data : message),
       invoke call {| parent_conn := Some sent |} =
         (Ret tt, {| parent_conn := Some (sent ++ [data]) |},
          match call with Call_shutdown => [StartNginx] | _ => [] end) ∧
       (data.1 ∈ spec_tags ∨
        data.1 = FETCH_QUADRATURES ∧
        ∃ status, call = Call_fetch_additional_signals status) ∧
       dispatch data = operation call) ∧
  (FETCH_QUADRATURES ∉ spec_tags) ∧
  (∀ tag : AcquisitionProcessSignals,
     ∃ (call : method_call) (payload : list pyval),
       invoke call {| parent_conn := Some [] |} =
         (Ret tt, {| parent_conn := Some [(tag, payload)] |},
          match call with Call_shutdown => [StartNginx] | _ => [] end)).
Proof.
  split; [|split].
  - intros call sent.
    destruct call; (eexists; split; [reflexivity|]); simpl;
      (split; [|reflexivity]); try (left; compute_done).
    right. eauto.
  - compute_done.
  - intros tag. destruct tag.
    + by exists Call_shutdown, [].
    + by exists (Call_set_sweep_speed VNone), [VNone].
    + by exists (Call_set_lock_status VNone), [VNone].
    + by exists (Call_set_csr VNone VNone), [VTuple [VNone; VNone]].
    + by exists (Call_set_iir_csr []), [VTuple []].
    + by exists Call_pause_acquisition, [VBool true].
    + by exists (Call_continue_acquisition VNone), [VNone].
    + by exists (Call_fetch_additional_signals VNone), [VNone].
    + by exists (Call_set_raw_acquisition VNone VNone), [VTuple [VNone; VNone]].
    + by exists (Call_set_dual_channel VNone), [VNone].
Qed.

Lemma restores_app (t1 t2 : list controller_event) :
  restores (t1 ++ t2) = restores t1 + restores t2.
Proof.
  induction t1 as [|e t1 IH]; [done|]. destruct e; simpl; by rewrite ?IH.
Qed.

Lemma shutdown_eq (c : AcquisitionController) :
  shutdown c =
    match parent_conn c with
    | Some (Connected unread) =>
        (Ret tt,
         {| parent_conn := Some (Connected (unread ++ [(SHUTDOWN, [])])) |},
         [StartNginx])
    | Some PeerClosed => (Raise BrokenPipeError, c, [])
    | None => (Ret tt, c, [StartNginx])
    end.
Proof.
  unfold shutdown, send_if_connected, send.
  by destruct (parent_conn c) as [[]|].
Qed.

(** A method called while the worker's end is open writes one tuple, which
    the worker dispatches to the operation of the call. *)
Lemma invoke_connected (call : method_call) (unread : list message) :
  ∃ data : message,
    invoke call {| parent_conn := Some (Connected unread) |} =
      (Ret tt, {| parent_conn := Some (Connected (unread ++ [data])) |},
       match call with Call_shutdown => [StartNginx] | _ => [] end) ∧
    dispatch data = operation call.
Proof. destruct call; by eexists. Qed.

(** Once the worker's end is closed no method writes or restores. *)
Lemma invoke_closed (call : method_call) :
  ∃ o, invoke call {| parent_conn := Some PeerClosed |} =
         (o, {| parent_conn := Some PeerClosed |}, []).
Proof. destruct call; by eexists. Qed.

Lemma run_closed (ms : list moment) :
  run ms {| parent_conn := Some PeerClosed |} =
    ({| parent_conn := Some PeerClosed |}, [], []).
Proof.
  induction ms as [|[call| |] ms IH]; simpl; try done.
  - destruct (invoke_closed call) as [o ->]. by rewrite IH.
  - by rewrite IH.
Qed.

Lemma run_app (ms1 ms2 : list moment) (c : AcquisitionController) :
  run (ms1 ++ ms2) c =
    match run ms1 c with
    | (c1, t1, w1) =>
        match run ms2 c1 with (c2, t2, w2) => (c2, t1 ++ t2, w1 ++ w2) end
    end.
Proof.
  revert c. induction ms1 as [|[call| |] ms1 IH]; intros c; simpl.
  - by destruct (run ms2 c) as [[c2 t2] w2].
  - destruct (invoke call c) as [[o c1] t1]. rewrite IH.
    destruct (run ms1 c1) as [[c1' t1'] w1'].
    destruct (run ms2 c1') as [[c2 t2] w2]. by rewrite app_assoc.
  - destruct (worker_drains c) as [c1 w1]. rewrite IH.
    destruct (run ms1 c1) as [[c1' t1'] w1'].
    destruct (run ms2 c1') as [[c2 t2] w2]. by rewrite app_assoc.
  - apply IH.
Qed.

Lemma run_user (call : method_call) (ms : list moment)
    (c : AcquisitionController) :
  run (User call :: ms) c =
    match invoke call c with
    | (_, c1, t1) =>
        match run ms c1 with (c2, t2, w2) => (c2, t1 ++ t2, w2) end
    end.
Proof. reflexivity. Qed.

Lemma run_drains (ms : list moment) (c : AcquisitionController) :
  run (WorkerDrains :: ms) c =
    match worker_drains c with
    | (c1, w1) =>
        match run ms c1 with (c2, t2, w2) => (c2, t2, w1 ++ w2) end
    end.
Proof. reflexivity. Qed.

Lemma invoke_restores (call : method_call) (c : AcquisitionController) :
  restores (invoke call c).2 ≤ shutdown_calls [call].
Proof.
  destruct call; simpl;
    unfold pause_acquisition, continue_acquisition, set_sweep_speed,
      set_lock_status, fetch_additional_signals, set_csr, set_iir_csr,
      set_raw_acquisition, set_dual_channel, send_if_connected, send;
    rewrite ?shutdown_eq; destruct (parent_conn c) as [[]|]; simpl; lia.
Qed.

Lemma run_restores (ms : list moment) (c : AcquisitionController) :
  restores (run ms c).1.2 ≤ shutdown_calls (user_calls ms).
Proof.
  revert c. induction ms as [|[call| |] ms IH]; intros c; simpl; try done.
  - pose proof (invoke_restores call c) as Hi.
    destruct (invoke call c) as [[o c1] t1]. specialize (IH c1).
    destruct (run ms c1) as [[c2 t2] w2]. simpl in *.
    rewrite restores_app. destruct call; simpl in *; lia.
  - destruct (worker_drains c) as [c1 w1]. specialize (IH c1).
    by destruct (run ms c1) as [[c2 t2] w2].
Qed.

Lemma harmless_drain (unread : list message) :
  harmless unread → ∃ t, drain unread = (Ret tt, t).
Proof.
  induction 1 as [|data unread [t Hd] _ [t' IH]]; simpl; [by eexists|].
  rewrite Hd, IH. by eexists.
Qed.

Lemma worker_drains_shutdown (unread more : list message) :
  harmless unread →
  ∃ t, worker_drains
         {| parent_conn :=
              Some (Connected ((unread ++ [(SHUTDOWN, [])]) ++ more)) |} =
       ({| parent_conn := Some PeerClosed |}, t).
Proof.
  intros Hu. unfold worker_drains. simpl.
  destruct (harmless_drain unread Hu) as [t Ht].
  rewrite <- app_assoc. simpl.
  rewrite (drain_app _ _ _ Ht), drain_shutdown. by eexists.
Qed.

Lemma invoke_harmless (call : method_call) (unread : list message) :
  call ≠ Call_shutdown → harmless unread →
  ∃ data,
    invoke call {| parent_conn := Some (Connected unread) |} =
      (Ret tt, {| parent_conn := Some (Connected (unread ++ [data])) |}, []) ∧
    harmless (unread ++ [data]).
Proof.
  intros Hc Hu. destruct (invoke_connected call unread) as (data & Hi & Hd).
  exists data. split; [by destruct call|].
  apply Forall_app. split; [done|]. constructor; [|done].
  rewrite Hd. destruct call; try done; by eexists.
Qed.

(** While the user does not call [shutdown] and the worker's process does
    not end by itself, the pipe stays open and nothing is restored. *)
Lemma run_quiet (ms : list moment) (unread : list message) :
  shutdown_calls (user_calls ms) = 0 → WorkerEnds ∉ ms → harmless unread →
  ∃ unread' w,
    run ms {| parent_conn := Some (Connected unread) |} =
      ({| parent_conn := Some (Connected unread') |}, [], w) ∧
    harmless unread'.
Proof.
  revert unread. induction ms as [|[call| |] ms IH]; intros unread Hs He Hu;
    simpl in *.
  - by eexists _, _.
  - apply not_elem_of_cons in He as [_ He].
    assert (call ≠ Call_shutdown) as Hc by (by intros ->).
    destruct (invoke_harmless call unread Hc Hu) as (data & -> & Hu').
    destruct (IH (unread ++ [data])) as (unread' & w & -> & Hu'');
      [by destruct call|done|done|].
    by eexists _, _.
  - apply not_elem_of_cons in He as [_ He].
    unfold worker_drains. simpl.
    destruct (harmless_drain unread Hu) as [t ->].
    destruct (IH []) as (unread' & w & -> & Hu''); [done|done|constructor|].
    by eexists _, _.
  - apply not_elem_of_cons in He as [He _]. done.
Qed.

(** Calls other than [shutdown], with the worker not coming round to the
    pipe in between: they add to what the pipe holds. *)
Lemma run_other_calls (ms : list moment) (unread : list message) :
  Forall (λ m, ∃ call, m = User call ∧ call ≠ Call_shutdown) ms →
  ∃ more,
    run ms {| parent_conn := Some (Connected unread) |} =
      ({| parent_conn := Some (Connected (unread ++ more)) |}, [], []).
Proof.
  intros H. revert unread.
  induction H as [|m ms (call & -> & Hc) _ IH]; intros unread; simpl.
  - exists []. by rewrite app_nil_r.
  - destruct (invoke_connected call unread) as (data & -> & _).
    destruct (IH (unread ++ [data])) as (more & ->).
    exists (data :: more). rewrite <- app_assoc. by destruct call.
Qed.

(** C9, as stated, fails: a supervisor whose user calls [shutdown] and whose
    interpreter exits before the worker has received the command starts the
    suspended service twice. *)
Lemma restore_not_exactly_once :
  ¬ (∀ (ms : list moment), restores (lifetime ms InterpreterExit).2 = 1).
Proof. intros H. specialize (H [User Call_shutdown]). discriminate H. Qed.

(** C9, amended.  [shutdown] starts the suspended service again exactly when
    its send does not fail: it writes [SHUTDOWN] to an open connection and
    starts the service, and on a connection whose peer is closed it raises
    [BrokenPipeError] before it gets there.  It has no guard against a
    second run and is also registered with [atexit].  So in a lifetime of
    the supervisor the service is started again at most once per call of
    [shutdown] by the user plus once for the exit of the interpreter.  When
    the user never calls [shutdown] and the worker is running, that is
    exactly once if the interpreter exits and not at all if the process is
    ended without its exit functions.  When the user calls [shutdown] once
    and the worker has received the command, that is exactly once: the
    worker has left, and every later call, the one of the exit of the
    interpreter included, fails in its send.  When the user has called
    [shutdown] once and the worker has not yet received the command, the
    exit of the interpreter starts the service a second time. *)
Theorem restore_once_per_shutdown :
  (∀ c : AcquisitionController,
     shutdown c =
       match parent_conn c with
       | Some (Connected unread) =>
           (Ret tt,
            {| parent_conn := Some (Connected (unread ++ [(SHUTDOWN, [])])) |},
            [StartNginx])
       | Some PeerClosed => (Raise BrokenPipeError, c, [])
       | None => (Ret tt, c, [StartNginx])
       end) ∧
  (∀ (ms : list moment) (how : termination),
     restores (lifetime ms how).2 ≤
       shutdown_calls (user_calls ms) +
       match how with InterpreterExit => 1 | Killed => 0 end) ∧
  (∀ (ms : list moment) (how : termination),
     shutdown_calls (user_calls ms) = 0 → WorkerEnds ∉ ms →
     restores (lifetime ms how).2 =
       match how with InterpreterExit => 1 | Killed => 0 end) ∧
  (∀ (ms1 ms2 ms3 : list moment) (how : termination),
     shutdown_calls (user_calls ms1) = 0 → WorkerEnds ∉ ms1 →
     Forall (λ m, ∃ call, m = User call ∧ call ≠ Call_shutdown) ms2 →
     restores
       (lifetime (ms1 ++ User Call_shutdown :: ms2 ++ WorkerDrains :: ms3)
          how).2 = 1) ∧
  (∀ (ms1 ms2 : list moment) (how : termination),
     shutdown_calls (user_calls ms1) = 0 → WorkerEnds ∉ ms1 →
     Forall (λ m, ∃ call, m = User call ∧ call ≠ Call_shutdown) ms2 →
     restores (lifetime (ms1 ++ User Call_shutdown :: ms2) how).2 =
       1 + match how with InterpreterExit => 1 | Killed => 0 end).
Proof.
  split_and!.
  - apply shutdown_eq.
  - intros ms how. unfold lifetime, __init__. simpl.
    pose proof (run_restores ms {| parent_conn := Some (Connected []) |}) as Hr.
    destruct (run ms _) as [[c1 t1] w1]. simpl in *.
    destruct how; [rewrite shutdown_eq|simpl; lia].
    destruct (parent_conn c1) as [[]|]; simpl;
      rewrite ?restores_app, ?app_nil_r; simpl; lia.
  - intros ms how Hs He. unfold lifetime, __init__. simpl.
    destruct (run_quiet ms [] Hs He) as (unread & w & -> & _); [constructor|].
    destruct how; [by rewrite shutdown_eq|done].
  - intros ms1 ms2 ms3 how Hs He H2. unfold lifetime, __init__. simpl.
    rewrite run_app.
    destruct (run_quiet ms1 [] Hs He) as (unread & w & -> & Hu); [constructor|].
    rewrite run_user. cbn [invoke]. rewrite shutdown_eq. cbn [parent_conn].
    rewrite run_app.
    destruct (run_other_calls ms2 (unread ++ [(SHUTDOWN, [])]) H2)
      as (more & ->).
    rewrite run_drains.
    destruct (worker_drains_shutdown unread more Hu) as [t ->].
    rewrite run_closed.
    destruct how; [by rewrite shutdown_eq|done].
  - intros ms1 ms2 how Hs He H2. unfold lifetime, __init__. simpl.
    rewrite run_app.
    destruct (run_quiet ms1 [] Hs He) as (unread & w & -> & Hu); [constructor|].
    rewrite run_user. cbn [invoke]. rewrite shutdown_eq. cbn [parent_conn].
    destruct (run_other_calls ms2 (unread ++ [(SHUTDOWN, [])]) H2)
      as (more & ->).
    destruct how; [by rewrite shutdown_eq|done].
Qed.

Lemma restore_once_per_shutdown_witness :
  restores (lifetime [User (Call_set_sweep_speed (VInt 3)); WorkerDrains]
              InterpreterExit).2 = 1 ∧
  restores (lifetime ([User (Call_set_sweep_speed (VInt 3)); WorkerDrains] ++
                      User Call_shutdown ::
                      [User (Call_set_dual_channel (VBool true))] ++
                      WorkerDrains :: [User Call_shutdown])
              InterpreterExit).2 = 1 ∧
  restores (lifetime ([] ++ User Call_shutdown :: []) InterpreterExit).2 =
    1 + 1.
Proof.
  destruct restore_once_per_shutdown as (_ & _ & H3 & H4 & H5).
  split_and!.
  - apply (H3 [User (Call_set_sweep_speed (VInt 3)); WorkerDrains]
              InterpreterExit); [done|].
    rewrite !not_elem_of_cons. split_and!; try done. apply not_elem_of_nil.
  - apply (H4 [User (Call_set_sweep_speed (VInt 3)); WorkerDrains]
              [User (Call_set_dual_channel (VBool true))]
              [User Call_shutdown] InterpreterExit); [done| |].
    + rewrite !not_elem_of_cons. split_and!; try done. apply not_elem_of_nil.
    + repeat constructor. by eexists.
  - apply (H5 [] [] InterpreterExit); [done|apply not_elem_of_nil|constructor].
Defined.

End Supervisor.

(** * Properties of the remote parameter mirror *)

Section Mirror.
Import RemoteParameters.

Lemma setattr_spec (attr : string) (o : pyobj) (m : mirror) :
  __setattr__ attr o m =
    if locked m && negb (String.prefix "_" attr)
    then (Raise AttributeError, m, [])
    else object_setattr attr o m.
Proof.
  unfold __setattr__, locked, bind, hasattr, getattr, ret, raise.
  destruct (m !! "_attributes_locked") as [l|] eqn:E; simpl.
  - rewrite E. simpl.
    destruct (truthy l), (String.prefix "_" attr); simpl; try done;
      by destruct (object_setattr attr o m) as [[? ?] ?].
  - by destruct (object_setattr attr o m) as [[? ?] ?].
Qed.

Lemma object_setattr_plain (attr : string) (o : pyobj) (m : mirror) :
  data_descriptor attr = false →
  object_setattr attr o m = (Ret tt, <[attr := o]> m, []).
Proof.
  unfold data_descriptor, object_setattr. intros H.
  apply orb_false_elim in H as [H ->]. apply orb_false_elim in H as [-> ->].
  done.
Qed.

Lemma object_setattr_descriptor (attr : string) (o : pyobj) (m : mirror) :
  data_descriptor attr = true →
  (∀ d, o ≠ ODict d) →
  ∃ e, object_setattr attr o m = (Raise e, m, []).
Proof.
  unfold data_descriptor, object_setattr. intros H Ho.
  destruct (String.eqb attr "__class__"); [by eexists|].
  destruct (String.eqb attr "__weakref__"); [by eexists|].
  destruct (String.eqb attr "__dict__"); [|done].
  destruct o; try by eexists. by destruct (Ho d).
Qed.

Lemma setattr_underscore (attr : string) (o : pyobj) (m : mirror) :
  String.prefix "_" attr = true → data_descriptor attr = false →
  __setattr__ attr o m = (Ret tt, <[attr := o]> m, []).
Proof.
  intros H Hd. by rewrite setattr_spec, H, andb_false_r, object_setattr_plain.
Qed.




(** ** The two loops over a batch *)

Lemma bind_inv {A B} (c : M A) (k : A → M B) (m : mirror) o m' t :
  bind c k m = (o, m', t) →
  (∃ a m1 t1 t2, c m = (Ret a, m1, t1) ∧ k a m1 = (o, m', t2) ∧ t = t1 ++ t2) ∨
  (∃ e, c m = (Raise e, m', t) ∧ o = Raise e).
Proof.
  unfold bind. destruct (c m) as [[[a|e] m1] t1].
  - destruct (k a m1) as [[o2 m2] t2] eqn:E. intros ?; simplify_eq.
    left. by exists a, m1, t1, t2.
  - intros ?; simplify_eq. right. by exists e.
Qed.

Lemma cache_updates_ext (m1 m2 : mirror) (queue : list (string * pyval)) :
  (∀ k, use_cache <$> handle_at m1 k = use_cache <$> handle_at m2 k) →
  cache_updates m1 queue = cache_updates m2 queue.
Proof.
  intros H. unfold cache_updates. induction queue as [|[n v] q IH]; [done|].
  simpl. rewrite IH. f_equal. specialize (H n).
  destruct (handle_at m1 n), (handle_at m2 n); simpl in H;
    try discriminate; [|done]. injection H as H. by rewrite H.
Qed.

Lemma cached_after_flags k p queue :
  name (cached_after k p queue) = name p ∧
  use_cache (cached_after k p queue) = use_cache p ∧
  restorable (cached_after k p queue) = restorable p ∧
  loggable (cached_after k p queue) = loggable p.
Proof.
  revert p. induction queue as [|[n v] q IH]; intros p; [done|]. simpl.
  destruct (IH (if decide (n = k)
                then if use_cache p then update_cache p v else p else p))
    as (-> & -> & -> & ->).
  destruct (decide _); [|done]. by destruct (use_cache p) eqn:E.
Qed.

Lemma cache_updates_cons (m : mirror) x (queue : list (string * pyval)) :
  cache_updates m (x :: queue) = cache_updates m [x] ++ cache_updates m queue.
Proof. unfold cache_updates. simpl. by rewrite app_nil_r. Qed.

Lemma caches_after_step (m m1 : mirror) n v (seen : list (string * pyval)) k :
  m1 !! n = caches_after m [(n, v)] n →
  (∀ k, k ≠ n → m1 !! k = m !! k) →
  caches_after m1 seen k = caches_after m ((n, v) :: seen) k.
Proof.
  intros Hn Hne. unfold caches_after at 1 2.
  destruct (decide (k = n)) as [->|Hkn].
  - rewrite Hn. unfold caches_after.
    destruct (m !! n) as [[p| | | | | |]|]; try done.
  - rewrite (Hne k Hkn).
    destruct (m !! k) as [[p| | | | | |]|]; try done.
    simpl. by rewrite decide_False by done.
Qed.

Lemma update_entry_eq n v (m : mirror) :
  update_entry (n, v) m =
    match m !! n with
    | Some (OParam p) =>
        if use_cache p
        then (Ret tt, <[n := OParam (update_cache p v)]> m, [UpdateCache n v])
        else (Ret tt, m, [])
    | _ => (Raise AttributeError, m, [])
    end.
Proof.
  unfold update_entry, bind, getattr, emit, store, ret, raise.
  destruct (m !! n) as [[p| | | | | |]|]; try done.
  by destruct (use_cache p).
Qed.

(** The cache loop: it runs over a prefix [seen] of the batch, the whole
    batch unless it raises; it rebinds handles only, to the same handle with
    the new cached value. *)
Lemma update_caches_spec (queue : list (string * pyval)) (m : mirror) o m' t :
  update_caches queue m = (o, m', t) →
  ∃ seen,
    seen `prefix_of` queue ∧
    (o = Ret tt → seen = queue) ∧
    (∀ k, m' !! k = caches_after m seen k) ∧
    t = cache_updates m seen.
Proof.
  unfold update_caches. revert m o m' t.
  induction queue as [|[n v] q IH]; intros m o m' t H; cbn [for_each] in H.
  - unfold ret in H. simplify_eq. exists []. split_and!; try done.
    intros k. unfold caches_after. by repeat case_match.
  - apply bind_inv in H as [(a & m1 & t1 & t2 & Hb & Hk & ->)|(e & Hb & ->)];
      rewrite update_entry_eq in Hb.
    + assert (m1 !! n = caches_after m [(n, v)] n ∧
              (∀ k, k ≠ n → m1 !! k = m !! k) ∧
              t1 = cache_updates m [(n, v)]) as (Hn & Hne & ->).
      { unfold caches_after, cache_updates, handle_at. simpl.
        destruct (m !! n) as [[p| | | | | |]|] eqn:E; simplify_eq.
        rewrite decide_True by done.
        destruct (use_cache p); simplify_eq; simpl.
        - rewrite lookup_insert_eq. split_and!; try done.
          intros k Hk'. by rewrite lookup_insert_ne.
        - done. }
      apply IH in Hk as (seen & Hpre & Hall & Hm' & ->).
      exists ((n, v) :: seen). split_and!.
      * by apply prefix_cons.
      * intros Ho. by rewrite (Hall Ho).
      * intros k. rewrite Hm'. by apply caches_after_step.
      * rewrite (cache_updates_cons m (n, v) seen). f_equal.
        apply cache_updates_ext. intros k. unfold handle_at.
        destruct (decide (k = n)) as [->|Hkn].
        -- rewrite Hn. unfold caches_after. simpl.
           destruct (m !! n) as [[p| | | | | |]|]; try done.
           rewrite decide_True by done. simpl.
           destruct (use_cache p) eqn:Ep; simpl; by rewrite ?Ep.
        -- by rewrite (Hne k).
    + assert (m' = m ∧ t = []) as [-> ->].
      { destruct (m !! n) as [[p| | | | | |]|] eqn:E; simplify_eq; try done.
        destruct (use_cache p); simplify_eq. }
      exists []. split_and!; try done.
      * apply prefix_nil.
      * intros k. unfold caches_after. by repeat case_match.
Qed.

Lemma bind_emit {B} (e : event) (k : unit → M B) (m : mirror) :
  bind (emit e) k m =
    match k tt m with (o, m2, t2) => (o, m2, e :: t2) end.
Proof. reflexivity. Qed.

Lemma for_each_callbacks (l : list callback) (v : pyval) (m : mirror) :
  for_each l (λ cb, emit (Callback cb v)) m =
    (Ret tt, m, (λ cb, Callback cb v) <$> l).
Proof.
  induction l as [|cb l IH]; [done|].
  simpl. by rewrite bind_emit, IH.
Qed.

Lemma call_entry_eq n v (m : mirror) :
  call_entry (n, v) m =
    match m !! "_callbacks" with
    | None => (Raise AttributeError, m, [])
    | Some c =>
        match py_in n c with
        | Raise e => (Raise e, m, [])
        | Ret false => (Ret tt, m, [])
        | Ret true =>
            match c with
            | ODict d =>
                match d !! n with
                | Some l => (Ret tt, m, (λ cb, Callback cb v) <$> l)
                | None => (Raise KeyError, m, [])
                end
            | _ => (Raise TypeError, m, [])
            end
        end
    end.
Proof.
  unfold call_entry, bind, getattr, lift, ret, raise.
  destruct (m !! "_callbacks") as [c|] eqn:E; [|done].
  destruct (py_in n c) as [[]|]; rewrite ?E; try done.
  destruct c as [| | | |d| |]; try done.
  destruct (d !! n); [|done]. by rewrite for_each_callbacks.
Qed.

Lemma call_entry_spec n v (m : mirror) o m' t :
  call_entry (n, v) m = (o, m', t) →
  m' = m ∧
  match o with
  | Ret _ => t = callback_calls m [(n, v)]
  | Raise _ => t = []
  end.
Proof.
  rewrite call_entry_eq. unfold callback_calls, callbacks_of. simpl.
  rewrite app_nil_r.
  destruct (m !! "_callbacks") as [c|]; [|by intros; simplify_eq].
  destruct (py_in n c) as [[]|] eqn:Ein.
  - destruct c as [| | | |d| |]; try by intros; simplify_eq.
    destruct (d !! n); by intros; simplify_eq.
  - destruct c as [| | | |d| |]; try by intros; simplify_eq.
    simpl in Ein. destruct (d !! n) eqn:El; [|by intros; simplify_eq].
    injection Ein as Ein. done.
  - by intros; simplify_eq.
Qed.

(** The callback loop: it leaves the mirror as it is, and when it does not
    raise it has invoked the callbacks of the batch in order. *)
Lemma call_callbacks_spec (queue : list (string * pyval)) (m : mirror) o m' t :
  call_callbacks queue m = (o, m', t) →
  m' = m ∧
  (∃ seen, seen `prefix_of` queue ∧ (o = Ret tt → seen = queue) ∧
           t = callback_calls m seen).
Proof.
  unfold call_callbacks. revert o m' t.
  induction queue as [|[n v] q IH]; intros o m' t H; cbn [for_each] in H.
  - unfold ret in H. simplify_eq. split; [done|]. by exists [].
  - apply bind_inv in H as [(a & m1 & t1 & t2 & Hb & Hk & ->)|(e & Hb & ->)];
      apply call_entry_spec in Hb as [-> Hb].
    + subst t1. apply IH in Hk as (-> & seen & Hpre & Hall & ->).
      split; [done|]. exists ((n, v) :: seen). split_and!.
      * by apply prefix_cons.
      * intros Ho. by rewrite (Hall Ho).
      * unfold callback_calls. simpl. by rewrite app_nil_r.
    + subst t. split; [done|]. exists []. split_and!; try done.
      apply prefix_nil.
Qed.

(** ** The four blocks of a poll in closed form *)

Lemma async_get_changed_parameters_queue_eq (m : mirror) :
  async_get_changed_parameters_queue m =
    match m !! "remote", m !! "uuid" with
    | Some ORemote, Some u =>
        (Ret (OAsync GetChangedParametersQueue), m,
         [AsyncGetChangedParametersQueue u])
    | _, _ => (Raise AttributeError, m, [])
    end.
Proof.
  unfold async_get_changed_parameters_queue, remote, bind, getattr, emit,
    ret, raise.
  destruct (m !! "remote") as [[]|] eqn:Er; try done.
  by destruct (m !! "uuid").
Qed.

Lemma async_register_remote_listeners_eq (pending : pyobj) (m : mirror) :
  async_register_remote_listeners pending m =
    match m !! "remote", m !! "uuid" with
    | Some ORemote, Some u =>
        (Ret (OAsync RegisterRemoteListeners), m,
         [AsyncRegisterRemoteListeners u pending])
    | _, _ => (Raise AttributeError, m, [])
    end.
Proof.
  unfold async_register_remote_listeners, remote, bind, getattr, emit,
    ret, raise.
  destruct (m !! "remote") as [[]|] eqn:Er; try done.
  by destruct (m !! "uuid").
Qed.

Lemma start_fetch_eq (m : mirror) :
  start_fetch m =
    match m !! "_async_changed_parameters_queue" with
    | None => (Raise AttributeError, m, [])
    | Some (OVal VNone) =>
        match m !! "remote", m !! "uuid" with
        | Some ORemote, Some u =>
            (Ret tt,
             <["_async_changed_parameters_queue" :=
                 OAsync GetChangedParametersQueue]> m,
             [AsyncGetChangedParametersQueue u])
        | _, _ => (Raise AttributeError, m, [])
        end
    | Some _ => (Ret tt, m, [])
    end.
Proof.
  unfold start_fetch, bind at 1, getattr at 1.
  destruct (m !! "_async_changed_parameters_queue") as [[|[]| | | | |]|];
    try done.
  simpl. unfold bind. rewrite async_get_changed_parameters_queue_eq.
  destruct (m !! "remote") as [[]|]; try done.
  destruct (m !! "uuid"); [|done].
  by rewrite setattr_underscore.
Qed.

Lemma start_registration_eq (m : mirror) :
  start_registration m =
    match m !! "_async_listener_registering" with
    | None => (Raise AttributeError, m, [])
    | Some (OVal VNone) =>
        match m !! "_listeners_pending_remote_registration" with
        | None => (Raise AttributeError, m, [])
        | Some pending =>
            if truthy pending then
              match slice_all pending with
              | Raise e => (Raise e, m, [])
              | Ret copy =>
                  match m !! "remote", m !! "uuid" with
                  | Some ORemote, Some u =>
                      let m1 := <["_async_listener_registering" :=
                                    OAsync RegisterRemoteListeners]> m in
                      match pending with
                      | OList _ =>
                          (Ret tt,
                           <["_listeners_pending_remote_registration" :=
                               OList []]> m1,
                           [AsyncRegisterRemoteListeners u copy])
                      | _ =>
                          (Raise AttributeError, m1,
                           [AsyncRegisterRemoteListeners u copy])
                      end
                  | _, _ => (Raise AttributeError, m, [])
                  end
              end
            else (Ret tt, m, [])
        end
    | Some _ => (Ret tt, m, [])
    end.
Proof.
  unfold start_registration, bind at 1, getattr at 1.
  destruct (m !! "_async_listener_registering") as [[|[]| | | | |]|];
    try done.
  simpl. unfold bind at 1, getattr at 1.
  destruct (m !! "_listeners_pending_remote_registration") as [pending|] eqn:Ep;
    [|done].
  destruct (truthy pending); [|done].
  unfold bind at 1, lift.
  destruct (slice_all pending) as [copy|e] eqn:Es; [|done].
  unfold bind at 1. rewrite async_register_remote_listeners_eq.
  destruct (m !! "remote") as [[]|]; try done.
  destruct (m !! "uuid"); [|done].
  unfold bind. rewrite setattr_underscore by done.
  unfold clear_pending, bind, getattr, store, raise.
  rewrite lookup_insert_ne by done. rewrite Ep.
  destruct pending as [| [] | | | | |]; try done.
Qed.

Lemma consume_fetch_eq (nw : net) (m : mirror) :
  consume_fetch nw m =
    match m !! "_async_changed_parameters_queue" with
    | None => (Raise AttributeError, m, [])
    | Some (OVal VNone) => (Ret tt, m, [])
    | Some (OAsync GetChangedParametersQueue) =>
        match changed_parameters_queue nw with
        | None => (Ret tt, m, [])
        | Some queue =>
            match m !! "remote", m !! "uuid" with
            | Some ORemote, Some u =>
                match update_caches queue m with
                | (Ret _, mu, tu) =>
                    match call_callbacks queue mu with
                    | (o, m', tc) =>
                        (o, m',
                         ResultChangedParametersQueue queue ::
                         AsyncGetChangedParametersQueue u :: tu ++ tc)
                    end
                | (Raise e, mu, tu) =>
                    (Raise e, mu,
                     ResultChangedParametersQueue queue ::
                     AsyncGetChangedParametersQueue u :: tu)
                end
            | _, _ =>
                (Raise AttributeError, m, [ResultChangedParametersQueue queue])
            end
        end
    | Some (OAsync RegisterRemoteListeners) =>
        if listener_registering_ready nw then (Raise TypeError, m, [])
        else (Ret tt, m, [])
    | Some _ => (Raise AttributeError, m, [])
    end.
Proof.
  unfold consume_fetch, bind at 1, getattr at 1.
  destruct (m !! "_async_changed_parameters_queue") as [a|] eqn:Ea; [|done].
  destruct a as [|[]|[]| | | |]; try done; simpl.
  - unfold bind at 1, lift.
    destruct (changed_parameters_queue nw) as [queue|] eqn:Eq; [|done].
    simpl. unfold bind at 1, getattr at 1. rewrite Ea.
    unfold bind at 1, lift. simpl. rewrite Eq.
    rewrite bind_emit.
    unfold bind at 1. rewrite async_get_changed_parameters_queue_eq.
    destruct (m !! "remote") as [[]|]; try done.
    destruct (m !! "uuid"); [|done].
    unfold bind at 1. rewrite setattr_underscore by done.
    rewrite (insert_id m _ _ Ea). unfold bind.
    destruct (update_caches queue m) as [[[[]|e] mu] tu]; [|done].
    by destruct (call_callbacks queue mu) as [[o m'] tc].
  - unfold bind at 1, lift.
    destruct (listener_registering_ready nw); [|done].
    simpl. unfold bind at 1, getattr at 1. rewrite Ea. done.
Qed.

Lemma finish_registration_eq (nw : net) (m : mirror) :
  finish_registration nw m =
    match m !! "_async_listener_registering" with
    | None => (Raise AttributeError, m, [])
    | Some (OVal VNone) => (Ret tt, m, [])
    | Some (OAsync c) =>
        match ready nw (OAsync c) with
        | Ret true =>
            (Ret tt, <["_async_listener_registering" := OVal VNone]> m,
             [ListenerRegistered])
        | _ => (Ret tt, m, [])
        end
    | Some _ => (Raise AttributeError, m, [])
    end.
Proof.
  unfold finish_registration, bind at 1, getattr at 1.
  destruct (m !! "_async_listener_registering") as [[|[]|c| | | |]|];
    try done.
  simpl. unfold bind at 1, lift.
  destruct c; simpl.
  - destruct (bool_decide _); [|done].
    rewrite bind_emit. by rewrite setattr_underscore.
  - destruct (listener_registering_ready nw); [|done].
    rewrite bind_emit. by rewrite setattr_underscore.
Qed.

(** ** Counting outstanding calls *)


Lemma within_app delta n (t1 t2 : list event) :
  within delta n (t1 ++ t2) ↔
  within delta n t1 ∧ within delta (n + outstanding delta t1) t2.
Proof.
  revert n. induction t1 as [|e t1 IH]; intros n; simpl.
  - replace (n + 0)%Z with n by lia. tauto.
  - rewrite IH.
    replace (n + delta e + outstanding delta t1)%Z
      with (n + (delta e + outstanding delta t1))%Z by lia.
    tauto.
Qed.








(** ** What each block of a poll does *)

Lemma start_fetch_spec (m : mirror) o m' t :
  start_fetch m = (o, m', t) →
  (t = [] ∧ m' = m) ∨
  (m !! "_async_changed_parameters_queue" = Some (OVal VNone) ∧
   m !! "remote" = Some ORemote ∧
   ∃ u, m !! "uuid" = Some u ∧ o = Ret tt ∧
        t = [AsyncGetChangedParametersQueue u] ∧
        m' = <["_async_changed_parameters_queue" :=
                 OAsync GetChangedParametersQueue]> m).
Proof.
  rewrite start_fetch_eq. intros H.
  repeat case_match; simplify_eq; eauto 10.
Qed.

Lemma start_registration_spec (m : mirror) o m' t :
  start_registration m = (o, m', t) →
  (t = [] ∧ m' = m) ∨
  (m !! "_async_listener_registering" = Some (OVal VNone) ∧
   ∃ pending copy u,
     m !! "_listeners_pending_remote_registration" = Some pending ∧
     truthy pending = true ∧ slice_all pending = Ret copy ∧
     t = [AsyncRegisterRemoteListeners u copy] ∧
     (m' = <["_async_listener_registering" :=
               OAsync RegisterRemoteListeners]> m ∨
      m' = <["_listeners_pending_remote_registration" := OList []]>
             (<["_async_listener_registering" :=
                  OAsync RegisterRemoteListeners]> m) ∧
      handle_at m "_listeners_pending_remote_registration" = None)).
Proof.
  rewrite start_registration_eq. intros H. unfold handle_at.
  destruct (m !! "_async_listener_registering") as [[|[]| | | | |]|];
    simplify_eq; eauto.
  destruct (m !! "_listeners_pending_remote_registration") as [pending|] eqn:Ep;
    simplify_eq; eauto.
  destruct (truthy pending) eqn:Et; simplify_eq; eauto.
  destruct (slice_all pending) as [copy|e] eqn:Es; simplify_eq; eauto.
  destruct (m !! "remote") as [[]|]; simplify_eq; eauto.
  destruct (m !! "uuid") as [u|]; simplify_eq; eauto.
  right. split; [done|]. exists pending, copy, u.
  destruct pending; simpl in H; simplify_eq; split_and!; eauto.
Qed.

Lemma consume_fetch_spec (nw : net) (m : mirror) o m' t :
  consume_fetch nw m = (o, m', t) →
  (t = [] ∧ m' = m) ∨
  (m !! "_async_changed_parameters_queue" =
     Some (OAsync GetChangedParametersQueue) ∧
   ∃ queue, changed_parameters_queue nw = Some queue ∧
     ((t = [ResultChangedParametersQueue queue] ∧ m' = m ∧
       o = Raise AttributeError ∧
       ¬ (m !! "remote" = Some ORemote ∧ is_Some (m !! "uuid"))) ∨
      (∃ u seen called,
         seen `prefix_of` queue ∧ called `prefix_of` queue ∧
         (o = Ret tt → seen = queue ∧ called = queue) ∧
         (∀ k, m' !! k = caches_after m seen k) ∧
         t = ResultChangedParametersQueue queue ::
             AsyncGetChangedParametersQueue u ::
             cache_updates m seen ++ callback_calls m' called))).
Proof.
  rewrite consume_fetch_eq. intros H.
  destruct (m !! "_async_changed_parameters_queue") as [[|[]|[]| | | |]|] eqn:Ea;
    simplify_eq; eauto.
  - destruct (changed_parameters_queue nw) as [queue|]; simplify_eq; eauto.
    right. split; [done|]. exists queue. split; [done|].
    destruct (m !! "remote") as [[]|] eqn:Er; simplify_eq;
      try (left; split_and!; try done; by intros [? ?]).
    destruct (m !! "uuid") as [u|] eqn:Eu; simplify_eq;
      [|left; split_and!; try done; by intros [? [? ?]]].
    right. exists u.
    destruct (update_caches queue m) as [[[[]|e] mu] tu] eqn:Eu';
      apply update_caches_spec in Eu' as (seen & Hp & Hall & Hm & ->).
    + destruct (call_callbacks queue mu) as [[o' m''] tc] eqn:Ec.
      apply call_callbacks_spec in Ec as (-> & called & Hc & Hcall & ->).
      simplify_eq. exists seen, called. split_and!; try done.
      intros Ho. split; [by apply Hall | by apply Hcall].
    + simplify_eq. exists seen, []. split_and!; try done.
      * apply prefix_nil.
      * unfold callback_calls. simpl. by rewrite app_nil_r.
  - destruct (listener_registering_ready nw); simplify_eq; eauto.
Qed.

Lemma finish_registration_spec (nw : net) (m : mirror) o m' t :
  finish_registration nw m = (o, m', t) →
  (t = [] ∧ m' = m) ∨
  ((∃ c, m !! "_async_listener_registering" = Some (OAsync c)) ∧
   o = Ret tt ∧ t = [ListenerRegistered] ∧
   m' = <["_async_listener_registering" := OVal VNone]> m).
Proof.
  rewrite finish_registration_eq. intros H.
  repeat case_match; simplify_eq; eauto 10.
Qed.

(** ** The frame of each block *)

Lemma not_marker_attr (k : string) :
  k ≠ "_async_changed_parameters_queue" →
  k ≠ "_async_listener_registering" →
  k ≠ "_listeners_pending_remote_registration" →
  ¬ marker_attr k.
Proof. intros H1 H2 H3 [?|[?|?]]; done. Qed.

Lemma untouched_refl (m : mirror) : untouched m m.
Proof. by split. Qed.

Lemma untouched_trans (m1 m2 m3 : mirror) :
  untouched m1 m2 → untouched m2 m3 → untouched m1 m3.
Proof.
  intros [H1 H1'] [H2 H2']. split; intros k.
  - by rewrite H2, H1.
  - intros Hk. by rewrite H2', H1'.
Qed.

Lemma untouched_insert (m : mirror) (k : string) (o : pyobj) :
  marker_attr k → handle_at m k = None → (∀ p, o ≠ OParam p) →
  untouched m (<[k := o]> m).
Proof.
  intros Hk Hh Ho. split; intros k'.
  - unfold handle_at in *. destruct (decide (k = k')) as [->|Hne].
    + rewrite lookup_insert_eq. destruct o; try done. by destruct (Ho p).
    + by rewrite lookup_insert_ne.
  - intros Hk'. rewrite lookup_insert_ne; [done|]. by intros ->.
Qed.

Lemma keeps_refl (m : mirror) : keeps m m.
Proof.
  intros k. unfold handle_at. by destruct (m !! k) as [[]|].
Qed.

Lemma keeps_trans (m1 m2 m3 : mirror) : keeps m1 m2 → keeps m2 m3 → keeps m1 m3.
Proof.
  intros H1 H2 k. specialize (H1 k). specialize (H2 k).
  unfold handle_at in *.
  destruct (m1 !! k) as [[p| | | | | |]|] eqn:E1.
  - destruct (m2 !! k) as [[p2| | | | | |]|]; by try destruct H1.
  - intros Hk. rewrite (H1 Hk) in H2. by apply H2.
  - intros Hk. rewrite (H1 Hk) in H2. by apply H2.
  - intros Hk. rewrite (H1 Hk) in H2. by apply H2.
  - intros Hk. rewrite (H1 Hk) in H2. by apply H2.
  - intros Hk. rewrite (H1 Hk) in H2. by apply H2.
  - intros Hk. rewrite (H1 Hk) in H2. by apply H2.
  - intros Hk. rewrite (H1 Hk) in H2. by apply H2.
Qed.

Lemma untouched_keeps (m m' : mirror) : untouched m m' → keeps m m'.
Proof.
  intros [H1 H2] k. specialize (H1 k). specialize (H2 k).
  unfold handle_at in *.
  destruct (m !! k) as [[p| | | | | |]|]; try done.
Qed.

Lemma caches_after_keeps (m m' : mirror) (seen : list (string * pyval)) :
  (∀ k, m' !! k = caches_after m seen k) → keeps m m'.
Proof.
  intros H k. unfold handle_at. rewrite H. unfold caches_after.
  by destruct (m !! k) as [[]|].
Qed.

Lemma start_fetch_untouched (m : mirror) o m' t :
  start_fetch m = (o, m', t) → untouched m m'.
Proof.
  intros H. apply start_fetch_spec in H
    as [[_ ->]|(Ha & _ & u & _ & _ & _ & ->)].
  - apply untouched_refl.
  - apply untouched_insert; [by left| |done].
    unfold handle_at. by rewrite Ha.
Qed.

Lemma start_registration_untouched (m : mirror) o m' t :
  start_registration m = (o, m', t) → untouched m m'.
Proof.
  intros H. apply start_registration_spec in H
    as [[_ ->]|(Ha & pending & copy & u & Hp & _ & _ & _ & Hm)].
  - apply untouched_refl.
  - assert (untouched m (<["_async_listener_registering" :=
                              OAsync RegisterRemoteListeners]> m)) as H1.
    { apply untouched_insert; [right; by left| |done].
      unfold handle_at. by rewrite Ha. }
    destruct Hm as [->|[-> Hh]]; [done|].
    eapply untouched_trans; [done|].
    apply untouched_insert; [right; by right| |done].
    unfold handle_at in *. by rewrite lookup_insert_ne.
Qed.

Lemma finish_registration_untouched (nw : net) (m : mirror) o m' t :
  finish_registration nw m = (o, m', t) → untouched m m'.
Proof.
  intros H. apply finish_registration_spec in H
    as [[_ ->]|([c Ha] & _ & _ & ->)].
  - apply untouched_refl.
  - apply untouched_insert; [right; by left| |done].
    unfold handle_at. by rewrite Ha.
Qed.

Lemma consume_fetch_keeps (nw : net) (m : mirror) o m' t :
  consume_fetch nw m = (o, m', t) → keeps m m'.
Proof.
  intros H. apply consume_fetch_spec in H
    as [[_ ->]|(_ & queue & _ & [(_ & -> & _)|(u & seen & called & _ & _ & _ & Hm & _)])].
  - apply keeps_refl.
  - apply keeps_refl.
  - by eapply caches_after_keeps.
Qed.

(** A poll keeps every handle a handle and every other attribute but the
    markers and the pending list as it is. *)
Lemma check_for_changed_parameters_keeps (nw : net) (m : mirror) o m' t :
  check_for_changed_parameters nw m = (o, m', t) → keeps m m'.
Proof.
  unfold check_for_changed_parameters. intros H.
  apply bind_inv in H as [(a1 & m1 & t1 & t' & H1 & H & ->)|(e & H1 & ->)];
    apply start_fetch_untouched, untouched_keeps in H1; [|done].
  eapply keeps_trans; [done|].
  apply bind_inv in H as [(a2 & m2 & t2 & t'' & H2 & H & ->)|(e & H2 & ->)];
    apply start_registration_untouched, untouched_keeps in H2; [|done].
  eapply keeps_trans; [done|].
  apply bind_inv in H as [(a3 & m3 & t3 & t4 & H3 & H & ->)|(e & H3 & ->)];
    apply consume_fetch_keeps in H3; [|done].
  eapply keeps_trans; [done|].
  by apply finish_registration_untouched, untouched_keeps in H.
Qed.

(** ** The monitors along a poll *)

Lemma cache_updates_silent delta (m : mirror) (queue : list (string * pyval)) :
  (∀ n v, delta (UpdateCache n v) = 0%Z) →
  Forall (λ e, delta e = 0%Z) (cache_updates m queue).
Proof.
  intros Hd. unfold cache_updates. induction queue as [|[n v] q IH]; simpl.
  - constructor.
  - apply Forall_app. split; [|done].
    destruct (handle_at m n) as [p|]; [|constructor].
    destruct (use_cache p); repeat constructor. apply Hd.
Qed.

Lemma callback_calls_silent delta (m : mirror) (queue : list (string * pyval)) :
  (∀ cb v, delta (Callback cb v) = 0%Z) →
  Forall (λ e, delta e = 0%Z) (callback_calls m queue).
Proof.
  intros Hd. unfold callback_calls. induction queue as [|[n v] q IH]; simpl.
  - constructor.
  - apply Forall_app. split; [|done].
    apply Forall_fmap, Forall_forall. intros cb _. apply Hd.
Qed.















Lemma polls_monitored delta (J : mirror → Z → Prop) (nws : list net)
    (m : mirror) n :
  (∀ nw, monitored delta J (check_for_changed_parameters nw)) →
  J m n → within delta n (polls nws m).2.
Proof.
  intros Hp. revert m n. induction nws as [|nw nws IH]; intros m n HJ; simpl.
  - done.
  - destruct (Hp nw m n HJ) as [Hw HJ'].
    destruct (check_for_changed_parameters nw m) as [[o m1] t1]. simpl in *.
    specialize (IH m1 _ HJ'). destruct (polls nws m1) as [m2 t2]. simpl in *.
    by apply within_app.
Qed.

(** ** Construction *)

Lemma setattr_unlocked (attr : string) (o : pyobj) (m : mirror) :
  m !! "_attributes_locked" = None → data_descriptor attr = false →
  __setattr__ attr o m = (Ret tt, <[attr := o]> m, []).
Proof.
  intros H Hd. rewrite setattr_spec. unfold locked.
  by rewrite H, object_setattr_plain.
Qed.

Lemma object_setattr_param (n : string) (p : RemoteParameter) (m : mirror) :
  object_setattr n (OParam p) m =
    if data_descriptor n
    then (Raise (if String.eqb n "__weakref__" then AttributeError
                 else TypeError), m, [])
    else (Ret tt, <[n := OParam p]> m, []).
Proof.
  unfold object_setattr, data_descriptor.
  destruct (String.eqb n "__class__") eqn:E1; simpl.
  - apply String.eqb_eq in E1 as ->. done.
  - destruct (String.eqb n "__weakref__"); simpl; [by rewrite orb_true_r|].
    rewrite orb_false_r. by destruct (String.eqb n "__dict__").
Qed.

Lemma add_parameter_spec (uc : bool) (entry : inventory_entry) (m : mirror) o m' t :
  add_parameter uc entry m = (o, m', t) →
  t = [] ∧ ∀ k, m' !! k = m !! k ∨ is_Some (handle_at m' k).
Proof.
  destruct entry as [[[[n v] cc] r] l]. unfold add_parameter.
  intros H. apply bind_inv in H
    as [(a & m1 & t1 & t2 & Hs & H & ->)|(e & Hs & ->)];
    rewrite setattr_spec, object_setattr_param in Hs.
  - destruct (locked m && _); [done|].
    destruct (data_descriptor n); simplify_eq.
    assert (t2 = [] ∧ ∀ k, m' !! k = m !! k ∨ is_Some (handle_at m' k)) as [-> ?];
      [|done].
    unfold store, ret in H. simpl in H.
    destruct (uc && cc); simplify_eq; (split; [done|]); intros k;
      unfold handle_at; (destruct (decide (k = n)) as [->|Hk];
        [right; by rewrite ?lookup_insert_eq
        |left; by rewrite ?lookup_insert_ne by done]).
  - destruct (locked m && _), (data_descriptor n); simplify_eq;
      (split; [done|]); by left.
Qed.

Lemma add_parameters_spec (uc : bool) (ps : list inventory_entry) (m : mirror) o m' t :
  for_each ps (add_parameter uc) m = (o, m', t) →
  t = [] ∧ ∀ k, m' !! k = m !! k ∨ is_Some (handle_at m' k).
Proof.
  revert m o m' t. induction ps as [|entry ps IH]; intros m o m' t H;
    cbn [for_each] in H.
  - unfold ret in H. simplify_eq. split; [done|]. by left.
  - apply bind_inv in H as [(a & m1 & t1 & t2 & Hb & H & ->)|(e & Hb & ->)].
    + apply add_parameter_spec in Hb as [-> Hb].
      apply IH in H as [-> H]. split; [done|]. intros k.
      destruct (H k) as [Hk|Hk]; [|by right].
      destruct (Hb k) as [Hk'|Hk']; [left; congruence|right].
      unfold handle_at in *. by rewrite Hk.
    + by apply add_parameter_spec in Hb.
Qed.

(** A successful construction: the inventory was asked for once, the
    attributes were locked, and the first poll ran on a mirror with no call
    outstanding. *)
Lemma construct_spec (uuid : string) (uc : bool) (ps : list inventory_entry)
    (nw : net) (m0 : mirror) t0 :
  construct uuid uc ps nw = (Ret tt, m0, t0) →
  ∃ m t,
    check_for_changed_parameters nw m = (Ret tt, m0, t) ∧
    t0 = CallInitParameterSync (OVal (VStr uuid)) :: t ∧
    m !! "_attributes_locked" = Some (OVal (VBool true)) ∧
    fetch_inv m 0 ∧ registration_inv m 0.
Proof.
  unfold construct, __init__. intros H.
  repeat (apply bind_inv in H
            as [([] & ? & ? & ? & ?Hs & H & ->)|(? & _ & ?)]; [|done];
          rewrite setattr_unlocked in Hs
            by (by rewrite ?lookup_insert_ne by done);
          simplify_eq; cbn [app] in * ).
  match type of H with bind _ _ ?m = _ => set (m6 := m) in * end.
  assert (m6 !! "remote" = Some ORemote) as Hr by done.
  assert (m6 !! "uuid" = Some (OVal (VStr uuid))) as Hu by done.
  apply bind_inv in H as [([] & ? & ? & ? & Hs & H & ->)|(? & Hs & ?)];
    unfold remote, bind, getattr, ret in Hs; rewrite Hr in Hs; [|done].
  simplify_eq.
  apply bind_inv in H as [(u & ? & ? & ? & Hs & H & ->)|(? & Hs & ?)];
    unfold getattr in Hs; rewrite Hu in Hs; [|done].
  simplify_eq. rewrite bind_emit in H.
  match type of H with
  | match ?c with _ => _ end = _ => destruct c as [[o' m'] t'] eqn:E
  end.
  simplify_eq.
  apply bind_inv in E as [([] & m7 & t7 & ? & Hl & H & ->)|(? & _ & ?)];
    [|done].
  apply add_parameters_spec in Hl as [-> Hl].
  apply bind_inv in H as [([] & ? & ? & ? & Hs & H & ->)|(? & _ & ?)];
    [|done].
  rewrite setattr_underscore in Hs by done. simplify_eq.
  apply bind_inv in H as [([] & ? & ? & ? & Hs & H & ->)|(? & _ & ?)];
    [|done].
  unfold method in Hs. case_match; simplify_eq.
  eexists _, _. split; [done|]. split; [done|].
  rewrite lookup_insert_eq. split; [done|].
  split; right; (split; [|done]); intros c;
    rewrite lookup_insert_ne by done.
  - destruct (Hl "_async_changed_parameters_queue") as [->|[p Hp]]; [done|].
    unfold handle_at in Hp. intros Hc. by rewrite Hc in Hp.
  - destruct (Hl "_async_listener_registering") as [->|[p Hp]]; [done|].
    unfold handle_at in Hp. intros Hc. by rewrite Hc in Hp.
Qed.

(** ** The claims about polling *)


Lemma polls_keeps (nws : list net) (m : mirror) : keeps m (polls nws m).1.
Proof.
  revert m. induction nws as [|nw nws IH]; intros m; simpl.
  - apply keeps_refl.
  - destruct (check_for_changed_parameters nw m) as [[o m1] t1] eqn:E.
    apply check_for_changed_parameters_keeps in E. specialize (IH m1).
    destruct (polls nws m1) as [m2 t2]. simpl in *. by eapply keeps_trans.
Qed.

Lemma keeps_locked (m m' : mirror) :
  keeps m m' →
  m !! "_attributes_locked" = Some (OVal (VBool true)) →
  m' !! "_attributes_locked" = Some (OVal (VBool true)).
Proof.
  intros H Hl. specialize (H "_attributes_locked"). rewrite Hl in H.
  apply H. by apply not_marker_attr.
Qed.




Lemma session_polls (nws : list net) (m : mirror) :
  session (Poll <$> nws) m = polls nws m.
Proof.
  revert m. induction nws as [|nw nws IH]; intros m; simpl; [done|].
  destruct (check_for_changed_parameters nw m) as [[o m1] t1].
  by rewrite IH.
Qed.


(** C4, as stated, fails: on the mirror of the scenario, assigning to
    [_foo], which is no parameter, raises nothing and binds the attribute. *)
Lemma unknown_underscore_name_assigned :
  ¬ (∀ (attr : string) (o : pyobj),
       handle_at scenario_mirror attr = None →
       ∃ e, __setattr__ attr o scenario_mirror = (Raise e, scenario_mirror, [])).
Proof.
  intros H. destruct (H "_foo" (OVal (VInt 1)) eq_refl) as [e He].
  rewrite setattr_underscore in He by done. discriminate He.
Qed.

(** C4, amended.  On a constructed mirror, after any sequence of polls,
    assigning to an attribute whose name does not start with an underscore
    (the name of a handle or any other name) raises [AttributeError] and
    leaves the mirror as it was: its handles, their cached values, the
    callbacks. *)
Theorem locked_names_not_assignable (uuid : string) (uc : bool)
    (ps : list inventory_entry) (nw0 : net) (m0 : mirror) t0
    (nws : list net) (attr : string) (o : pyobj) :
  construct uuid uc ps nw0 = (Ret tt, m0, t0) →
  String.prefix "_" attr = false →
  __setattr__ attr o (polls nws m0).1 =
    (Raise AttributeError, (polls nws m0).1, []).
Proof.
  intros H Hattr. apply construct_spec in H as (m & t & Hp & _ & Hl & _).
  apply check_for_changed_parameters_keeps in Hp.
  pose proof (keeps_locked _ _ (keeps_trans _ _ _ Hp (polls_keeps nws m0)) Hl)
    as Hl'.
  rewrite setattr_spec. unfold locked. by rewrite Hl', Hattr.
Qed.

Lemma locked_names_not_assignable_witness :
  __setattr__ "speed" (OVal (VInt 3))
    (polls [quiet_net] scenario_mirror).1 =
    (Raise AttributeError, (polls [quiet_net] scenario_mirror).1, []) ∧
  __setattr__ "offset" (OVal (VInt 3))
    (polls [quiet_net] scenario_mirror).1 =
    (Raise AttributeError, (polls [quiet_net] scenario_mirror).1, []).
Proof.
  split.
  - apply (locked_names_not_assignable "uuid-1" true scenario_inventory
             quiet_net scenario_mirror
             [CallInitParameterSync (OVal (VStr "uuid-1"));
              AsyncGetChangedParametersQueue (OVal (VStr "uuid-1"))]);
      reflexivity.
  - apply (locked_names_not_assignable "uuid-1" true scenario_inventory
             quiet_net scenario_mirror
             [CallInitParameterSync (OVal (VStr "uuid-1"));
              AsyncGetChangedParametersQueue (OVal (VStr "uuid-1"))]);
      reflexivity.
Defined.

Lemma cached_after_latest (n : string) (p : RemoteParameter)
    (queue : list (string * pyval)) :
  use_cache p = true →
  _cached_value (cached_after n p queue) =
    match latest n queue with
    | Some v => Some v
    | None => _cached_value p
    end.
Proof.
  revert p. induction queue as [|[n' v] q IH]; intros p Hp; simpl; [done|].
  rewrite Hp. destruct (decide (n' = n)) as [->|Hne].
  - rewrite IH by done. by destruct (latest n q).
  - rewrite IH by done. by destruct (latest n q).
Qed.

Lemma latest_is_Some (n : string) (queue : list (string * pyval)) :
  n ∈ queue.*1 → is_Some (latest n queue).
Proof.
  induction queue as [|[n' v] q IH]; simpl; intros H.
  - by apply elem_of_nil in H.
  - apply elem_of_cons in H as [->|H].
    + destruct (latest n' q); [done|]. by rewrite decide_True.
    + destruct (IH H) as [w ->]. done.
Qed.

Lemma callbacks_of_ext (m m' : mirror) (n : string) :
  m' !! "_callbacks" = m !! "_callbacks" → callbacks_of m' n = callbacks_of m n.
Proof. unfold callbacks_of. by intros ->. Qed.

Lemma callbacks_of_caches (m m' : mirror) (seen : list (string * pyval)) (n : string) :
  (∀ k, m' !! k = caches_after m seen k) → callbacks_of m' n = callbacks_of m n.
Proof.
  intros H. unfold callbacks_of. rewrite H. unfold caches_after.
  by destruct (m !! "_callbacks") as [[]|].
Qed.

Lemma callback_calls_ext (m m' : mirror) (queue : list (string * pyval)) :
  (∀ n, callbacks_of m' n = callbacks_of m n) →
  callback_calls m' queue = callback_calls m queue.
Proof.
  intros H. unfold callback_calls. induction queue as [|[n v] q IH]; [done|].
  simpl. by rewrite IH, H.
Qed.

(** C1. When a poll that completes has consumed the batch [queue]: its trace
    is, between events that are neither cache writes nor callback
    invocations, first the cache writes for the entries of the batch whose
    handle is cache-backed, in the order of the batch, and then the callback
    invocations for the entries of the batch, in the order of the batch; and
    afterwards reading a cache-backed name that occurs in the batch returns,
    without a call to the server, the last value the batch has for that
    name. *)
Theorem batch_caches_before_callbacks (nw : net) (m m' : mirror) t
    (queue : list (string * pyval)) :
  check_for_changed_parameters nw m = (Ret tt, m', t) →
  ResultChangedParametersQueue queue ∈ t →
  (∃ pre post,
     t = pre ++ cache_updates m queue ++ callback_calls m queue ++ post ∧
     Forall control pre ∧ Forall control post) ∧
  (∀ n p, handle_at m n = Some p → use_cache p = true → n ∈ queue.*1 →
     ∃ v, latest n queue = Some v ∧
          ∀ server, read server n m' = (Ret v, m', [])).
Proof.
  unfold check_for_changed_parameters. intros H Hin.
  apply bind_inv in H as [([] & m1 & t1 & ? & H1 & H & ->)|(? & _ & ?)];
    [|done].
  apply bind_inv in H as [([] & m2 & t2 & ? & H2 & H & ->)|(? & _ & ?)];
    [|done].
  apply bind_inv in H as [([] & m3 & t3 & t4 & H3 & H4 & ->)|(? & _ & ?)];
    [|done].
  pose proof (start_fetch_untouched _ _ _ _ H1) as U1.
  pose proof (start_registration_untouched _ _ _ _ H2) as U2.
  pose proof (finish_registration_untouched _ _ _ _ _ H4) as U4.
  pose proof (untouched_trans _ _ _ U1 U2) as [Uh Uk].
  assert (Forall control t1) as C1.
  { apply start_fetch_spec in H1 as [[-> _]|(_ & _ & u & _ & _ & -> & _)];
      by repeat constructor. }
  assert (Forall control t2) as C2.
  { apply start_registration_spec in H2
      as [[-> _]|(_ & ? & ? & ? & _ & _ & _ & -> & _)];
      by repeat constructor. }
  assert (Forall control t4) as C4.
  { apply finish_registration_spec in H4 as [[-> _]|(_ & _ & -> & _)];
      by repeat constructor. }
  assert (ResultChangedParametersQueue queue ∈ t3) as Hin3.
  { rewrite !elem_of_app in Hin. destruct Hin as [Hin|[Hin|[Hin|Hin]]];
      [| |done|].
    - apply start_fetch_spec in H1 as [[-> _]|(_ & _ & u & _ & _ & -> & _)];
        by repeat (apply elem_of_cons in Hin as [?|Hin]);
           try apply elem_of_nil in Hin.
    - apply start_registration_spec in H2
        as [[-> _]|(_ & ? & ? & ? & _ & _ & _ & -> & _)];
        by repeat (apply elem_of_cons in Hin as [?|Hin]);
           try apply elem_of_nil in Hin.
    - apply finish_registration_spec in H4 as [[-> _]|(_ & _ & -> & _)];
        by repeat (apply elem_of_cons in Hin as [?|Hin]);
           try apply elem_of_nil in Hin. }
  apply consume_fetch_spec in H3
    as [[-> _]|(_ & queue' & _ & [(_ & _ & ? & _)|
                (u & seen & called & _ & _ & Hall & Hm & ->)])];
    [by apply elem_of_nil in Hin3|done|].
  destruct (Hall eq_refl) as [-> ->].
  assert (queue' = queue) as ->.
  { apply elem_of_cons in Hin3 as [?|Hin3]; [by simplify_eq|].
    apply elem_of_cons in Hin3 as [?|Hin3]; [done|].
    apply elem_of_app in Hin3 as [Hin3|Hin3]; exfalso.
    - pose proof (cache_updates_silent
                    (λ e, match e with UpdateCache _ _ => 0%Z | _ => 1%Z end)
                    m2 queue' (λ _ _, eq_refl)) as Hs.
      rewrite Forall_forall in Hs. by specialize (Hs _ Hin3).
    - pose proof (callback_calls_silent
                    (λ e, match e with Callback _ _ => 0%Z | _ => 1%Z end)
                    m3 queue' (λ _ _, eq_refl)) as Hs.
      rewrite Forall_forall in Hs. by specialize (Hs _ Hin3). }
  split.
  - exists (t1 ++ t2 ++ [ResultChangedParametersQueue queue;
                         AsyncGetChangedParametersQueue u]), t4.
    split_and!; [|by rewrite !Forall_app; repeat constructor|done].
    rewrite <- !app_assoc. simpl. do 4 f_equal.
    rewrite <- app_assoc. f_equal.
    + apply cache_updates_ext. intros k. by rewrite Uh.
    + f_equal. apply callback_calls_ext. intros n.
      rewrite (callbacks_of_caches _ _ _ _ Hm).
      apply callbacks_of_ext, Uk. by apply not_marker_attr.
  - intros n p Hp Hc Hn.
    destruct (latest_is_Some _ _ Hn) as [v Hv]. exists v. split; [done|].
    intros server.
    assert (m' !! n = Some (OParam (cached_after n p queue))) as Hm'.
    { destruct U4 as [Uh4 _]. specialize (Uh4 n). unfold handle_at in Uh4.
      rewrite Hm in Uh4. unfold caches_after in Uh4.
      specialize (Uh n). rewrite Hp in Uh. unfold handle_at in Uh.
      destruct (m2 !! n) as [[]|]; simplify_eq.
      by destruct (m' !! n) as [[]|]; simplify_eq. }
    unfold read, handle, bind, getattr, value, ret. rewrite Hm'. simpl.
    by rewrite (cached_after_latest _ _ _ Hc), Hv.
Qed.

Lemma batch_caches_before_callbacks_witness :
  let r := check_for_changed_parameters scenario_net scenario_listening in
  (∃ pre post,
     r.2 = pre ++ cache_updates scenario_listening scenario_batch ++
           callback_calls scenario_listening scenario_batch ++ post ∧
     Forall control pre ∧ Forall control post) ∧
  (∀ n p, handle_at scenario_listening n = Some p → use_cache p = true →
     n ∈ scenario_batch.*1 →
     ∃ v, latest n scenario_batch = Some v ∧
          ∀ server, read server n r.1.2 = (Ret v, r.1.2, [])).
Proof.
  intros r.
  apply (batch_caches_before_callbacks scenario_net scenario_listening
           r.1.2 r.2 scenario_batch).
  - reflexivity.
  - apply list_elem_of_here.
Defined.


(** A mirror whose construction succeeded has its connection: the first
    poll has gone through it. *)
Lemma construct_remote (uuid : string) (uc : bool) (ps : list inventory_entry)
    (nw : net) (m0 : mirror) t0 (nws : list net) :
  construct uuid uc ps nw = (Ret tt, m0, t0) →
  (polls nws m0).1 !! "remote" = Some ORemote.
Proof.
  intros H. apply construct_spec in H as (m & t & Hp & _ & _ & Hf & _).
  pose proof (keeps_trans _ _ _
                (check_for_changed_parameters_keeps _ _ _ _ _ Hp)
                (polls_keeps nws m0)) as Hk.
  assert (m !! "remote" = Some ORemote) as Hr.
  { unfold check_for_changed_parameters in Hp.
    apply bind_inv in Hp as [([] & m1 & t1 & ? & H1 & Hp & ->)|(? & _ & ?)];
      [|done].
    apply bind_inv in Hp as [([] & m2 & t2 & ? & H2 & Hp & ->)|(? & _ & ?)];
      [|done].
    apply bind_inv in Hp as [([] & m3 & t3 & ? & H3 & _ & ->)|(? & _ & ?)];
      [|done].
    assert (m2 !! "_async_changed_parameters_queue" =
            m1 !! "_async_changed_parameters_queue") as E2.
    { apply start_registration_spec in H2
        as [[_ ->]|(_ & ? & ? & ? & _ & _ & _ & _ & [->|[-> _]])];
        by rewrite ?lookup_insert_ne by done. }
    destruct Hf as [(_ & ? & _)|[Hf _]]; [done|].
    rewrite start_fetch_eq in H1. rewrite consume_fetch_eq, E2 in H3.
    destruct (m !! "_async_changed_parameters_queue")
      as [[|[]|c| | | |]|] eqn:Ea; simplify_eq;
      try (rewrite Ea in H3; by simplify_eq);
      try by destruct (Hf c).
    destruct (m !! "remote") as [[]|]; by simplify_eq. }
  specialize (Hk "remote"). rewrite Hr in Hk. apply Hk.
  by apply not_marker_attr.
Qed.

(** C8. Assigning to the [value] of a handle makes exactly one call,
    [exposed_set_param] with the handle's name and the value, and leaves the
    whole mirror as it was: every cached value, the writing handle's
    included, the callbacks and the names pending registration.  This holds
    on every mirror with its connection, and so on every constructed mirror
    after any sequence of polls. *)
Theorem write_only_calls_server (attr : string) (p : RemoteParameter) (v : pyval) :
  (∀ m : mirror,
     m !! "remote" = Some ORemote →
     m !! attr = Some (OParam p) →
     write attr v m = (Ret tt, m, [CallSetParam (name p) v])) ∧
  (∀ (uuid : string) (uc : bool) (ps : list inventory_entry) (nw : net)
     (m0 : mirror) t0 (nws : list net),
     construct uuid uc ps nw = (Ret tt, m0, t0) →
     (polls nws m0).1 !! attr = Some (OParam p) →
     write attr v (polls nws m0).1 =
       (Ret tt, (polls nws m0).1, [CallSetParam (name p) v])).
Proof.
  assert (∀ m : mirror,
            m !! "remote" = Some ORemote →
            m !! attr = Some (OParam p) →
            write attr v m = (Ret tt, m, [CallSetParam (name p) v])) as Hw.
  { intros m Hr Hp.
    unfold write, handle, set_value, remote, bind, getattr, ret, emit.
    rewrite Hp. simpl. by rewrite Hr. }
  split; [done|].
  intros uuid uc ps nw m0 t0 nws Hc Hp. apply Hw; [|done].
  by eapply construct_remote.
Qed.

Lemma write_only_calls_server_witness :
  write "speed" (VInt 25) scenario_mirror =
    (Ret tt, scenario_mirror, [CallSetParam "speed" (VInt 25)]) ∧
  write "speed" (VInt 25) (polls [scenario_net] scenario_mirror).1 =
    (Ret tt, (polls [scenario_net] scenario_mirror).1,
     [CallSetParam "speed" (VInt 25)]).
Proof.
  split.
  - apply (proj1 (write_only_calls_server "speed"
             {| name := "speed"; use_cache := true; restorable := false;
                loggable := false; _cached_value := Some (VInt 10) |}
             (VInt 25))); reflexivity.
  - apply (proj2 (write_only_calls_server "speed"
             {| name := "speed"; use_cache := true; restorable := false;
                loggable := false; _cached_value := Some (VInt 12) |}
             (VInt 25)) "uuid-1" true scenario_inventory quiet_net
             scenario_mirror
             [CallInitParameterSync (OVal (VStr "uuid-1"));
              AsyncGetChangedParametersQueue (OVal (VStr "uuid-1"))]
             [scenario_net]); reflexivity.
Defined.

(** C3, what the code does.  [add_callback] starts by looking up
    [_callbacks] on the handle itself, which has no such attribute (the
    dictionary is an attribute of the mirror, [self.parent._callbacks]):
    every call raises [AttributeError] before anything is registered, queued
    or invoked, whatever the handle, the callback and the mirror; so does
    [r.<attr>.add_callback(...)] for every attribute name. *)
Theorem add_callback_raises (server : string → pyval) (cb : callback)
    (call_with_first_value : bool) (m : mirror) :
  (∀ self : RemoteParameter,
     add_callback server self cb call_with_first_value m =
       (Raise AttributeError, m, [])) ∧
  (∀ attr : string,
     register_callback server attr cb call_with_first_value m =
       (Raise AttributeError, m, [])) ∧
  register_callback server "status" cb true scenario_mirror =
    (Raise AttributeError, scenario_mirror, []).
Proof.
  assert (∀ self : RemoteParameter,
            add_callback server self cb call_with_first_value m =
              (Raise AttributeError, m, [])) as Ha by done.
  split; [done|]. split; [|done].
  intros attr. unfold register_callback, handle, bind, getattr, ret, raise.
  destruct (m !! attr) as [[self| | | | | |]|]; [apply (Ha self)|done..].
Qed.

End Mirror.

Set Warnings "-clear-no-such-hyp".

(** * Properties of the register map of the FPGA image *)

Section RegisterMap.
Import FpgaImageHelper.

Lemma reg_bytes_fits (size : Z) :
  (size ≤ 8 * ((size + 8 - 1) / 8))%Z ∧
  ((0 < size)%Z → (0 < (size + 8 - 1) / 8)%Z).
Proof.
  pose proof (Z.div_mod (size + 8 - 1) 8 ltac:(lia)) as Hd.
  pose proof (Z.mod_pos_bound (size + 8 - 1) 8 ltac:(lia)) as Hm.
  split; [lia|]. intros Hs. lia.
Qed.

Lemma bank_regs_next (b : bank) (addr : Z) (csrs : list csr) (i : nat) ri rj :
  bank_regs b addr csrs !! i = Some ri →
  bank_regs b addr csrs !! S i = Some rj →
  reg_addr rj = (reg_addr ri + reg_bytes ri)%Z.
Proof.
  revert addr i. induction csrs as [|c csrs IH]; intros addr i Hi Hj;
    [done|].
  destruct i as [|i]; simpl in *.
  - destruct csrs as [|c' csrs]; simpl in Hj; by simplify_eq.
  - by eapply IH.
Qed.

Lemma bank_regs_from (b : bank) (addr : Z) (csrs : list csr) (i : nat) r :
  Forall (λ c, (0 < csr_size c)%Z) csrs →
  bank_regs b addr csrs !! i = Some r →
  (addr ≤ reg_addr r)%Z.
Proof.
  intros Hpos. revert addr i.
  induction Hpos as [|c csrs Hc Hpos IH]; intros addr i Hi; [done|].
  destruct i as [|i]; simpl in *.
  - by simplify_eq.
  - apply IH in Hi. destruct (reg_bytes_fits (csr_size c)) as [_ Hb].
    specialize (Hb Hc). lia.
Qed.

Lemma bank_regs_disjoint (b : bank) (addr : Z) (csrs : list csr) (i j : nat) ri rj :
  Forall (λ c, (0 < csr_size c)%Z) csrs →
  bank_regs b addr csrs !! i = Some ri →
  bank_regs b addr csrs !! j = Some rj →
  i < j →
  (reg_addr ri + reg_bytes ri ≤ reg_addr rj)%Z.
Proof.
  intros Hpos. revert addr i j.
  induction Hpos as [|c csrs Hc Hpos IH]; intros addr i j Hi Hj Hij; [done|].
  destruct j as [|j]; [lia|]. destruct i as [|i]; simpl in *.
  - simplify_eq. unfold reg_bytes. simpl.
    by eapply bank_regs_from.
  - eapply IH; [done..|lia].
Qed.

Lemma get_csrmap_app (banks1 banks2 : list bank) :
  get_csrmap (banks1 ++ banks2) = get_csrmap banks1 ++ get_csrmap banks2.
Proof.
  unfold get_csrmap. induction banks1 as [|b banks1 IH]; simpl; [done|].
  by rewrite IH, app_assoc.
Qed.

Lemma bank_regs_length (b : bank) (addr : Z) (csrs : list csr) :
  length (bank_regs b addr csrs) = length csrs.
Proof.
  revert addr. induction csrs as [|c csrs IH]; intros addr; simpl; [done|].
  by rewrite IH.
Qed.

(** X1. [get_csrmap] yields one list per CSR, bank after bank: the lists of
    a sequence of banks are those of its first part followed by those of the
    rest, so the register addresses of a bank do not depend on the banks
    around it, and there are as many lists as CSRs. *)
Theorem get_csrmap_bank_by_bank (banks1 banks2 : list bank) :
  get_csrmap (banks1 ++ banks2) = get_csrmap banks1 ++ get_csrmap banks2 ∧
  length (get_csrmap banks1) =
    sum_list ((λ b, length (bank_csrs b)) <$> banks1).
Proof.
  split; [apply get_csrmap_app|].
  induction banks1 as [|b banks1 IH]; [done|].
  change (b :: banks1) with ([b] ++ banks1).
  rewrite get_csrmap_app, length_app, IH. simpl.
  by rewrite app_nil_r, bank_regs_length.
Qed.

(** X2. Within a bank whose CSRs have a positive size, [get_csrmap] gives
    the first register address 0 and each following register the address
    right after the bytes of the one before; the bytes of a register hold
    its bits, and the byte ranges of two registers of the bank do not
    overlap. *)
Theorem get_csrmap_addresses (b : bank) :
  Forall (λ c, (0 < csr_size c)%Z) (bank_csrs b) →
  (∀ r, get_csrmap [b] !! 0 = Some r → reg_addr r = 0%Z) ∧
  (∀ (i : nat) ri rj,
     get_csrmap [b] !! i = Some ri → get_csrmap [b] !! S i = Some rj →
     reg_addr rj = (reg_addr ri + reg_bytes ri)%Z) ∧
  (∀ (i : nat) r,
     get_csrmap [b] !! i = Some r →
     (reg_size r ≤ 8 * reg_bytes r)%Z ∧ (0 < reg_bytes r)%Z) ∧
  (∀ (i j : nat) ri rj,
     get_csrmap [b] !! i = Some ri → get_csrmap [b] !! j = Some rj →
     i < j → (reg_addr ri + reg_bytes ri ≤ reg_addr rj)%Z).
Proof.
  intros Hpos. unfold get_csrmap. simpl. rewrite app_nil_r.
  split_and!.
  - intros r Hr. destruct (bank_csrs b); simpl in Hr; by simplify_eq.
  - intros i ri rj. apply bank_regs_next.
  - intros i r Hr.
    assert (∃ c, c ∈ bank_csrs b ∧ reg_size r = csr_size c) as (c & Hc & Hs).
    { revert Hr. generalize 0%Z. revert i.
      induction (bank_csrs b) as [|c csrs IH]; intros i addr Hr; [done|].
      destruct i as [|i]; simpl in Hr.
      - simplify_eq. exists c. split; [left|done].
      - inversion Hpos; subst. destruct (IH H2 _ _ Hr) as (c' & Hc' & Hs').
        exists c'. split; [by right|done]. }
    unfold reg_bytes. rewrite Hs.
    rewrite Forall_forall in Hpos. specialize (Hpos _ Hc).
    destruct (reg_bytes_fits (csr_size c)) as [H1 H2]. split; [done|auto].
  - intros i j ri rj. by apply bank_regs_disjoint.
Qed.

Lemma get_csrmap_addresses_witness :
  (∀ r, get_csrmap [example_bank] !! 0 = Some r → reg_addr r = 0%Z) ∧
  reg_addr <$> get_csrmap [example_bank] = [0; 1; 2; 4]%Z.
Proof.
  split; [|reflexivity].
  apply (get_csrmap_addresses example_bank). repeat constructor.
Defined.

End RegisterMap.

(** * Properties of the helpers of the optimization *)

Section OptimizationHelpers.
Import Optimization.

(** X3. [convert_params] has as many results as the shortest of its three
    arguments, the surplus of the longer ones being ignored, and its result
    at a position is [min_ + v * (max_ - min_)] of the three values there. *)
Theorem convert_params_shortest {num : Type} (add sub mul : num → num → num)
    (params xmin xmax : list num) :
  length (convert_params num add sub mul params xmin xmax) =
    length params `min` (length xmin `min` length xmax) ∧
  (∀ (i : nat) v min_ max_,
     params !! i = Some v → xmin !! i = Some min_ → xmax !! i = Some max_ →
     convert_params num add sub mul params xmin xmax !! i =
       Some (add min_ (mul v (sub max_ min_)))).
Proof.
  split.
  - revert xmin xmax. induction params as [|v params IH];
      intros [|mn xmin] [|mx xmax]; simpl; try done.
    by rewrite IH.
  - revert xmin xmax. induction params as [|v params IH];
      intros [|mn xmin] [|mx xmax] i v' mn' mx' Hv Hmn Hmx; try done.
    destruct i as [|i]; simpl in *; [by simplify_eq|]. by apply IH.
Qed.

Lemma convert_params_shortest_witness :
  length (convert_params Z Z.add Z.sub Z.mul
            [0; 1; 2]%Z [10; 20]%Z [30; 40; 50; 60]%Z) = 2 ∧
  convert_params Z Z.add Z.sub Z.mul
    [0; 1; 2]%Z [10; 20]%Z [30; 40; 50; 60]%Z !! 1 =
    Some (20 + 1 * (40 - 20))%Z.
Proof.
  split.
  - apply (convert_params_shortest Z.add Z.sub Z.mul [0; 1; 2]%Z [10; 20]%Z
             [30; 40; 50; 60]%Z).
  - apply (convert_params_shortest Z.add Z.sub Z.mul [0; 1; 2]%Z [10; 20]%Z
             [30; 40; 50; 60]%Z); reflexivity.
Defined.

(** X4. [is_centering_iteration] holds exactly for the positive multiples of
    ten: not for 0, not for a negative number; after a centering iteration
    the next nine are none and the tenth is one again, so an iteration and
    the one after it are never both centering iterations. *)
Theorem centering_every_tenth (iteration : Z) :
  (is_centering_iteration iteration = true ↔
     ∃ k, (0 < k)%Z ∧ iteration = (10 * k)%Z) ∧
  (is_centering_iteration iteration = true →
     ∀ d, (0 < d < 10)%Z → is_centering_iteration (iteration + d) = false) ∧
  (is_centering_iteration iteration = true →
     is_centering_iteration (iteration + 10) = true) ∧
  ((iteration ≤ 0)%Z → is_centering_iteration iteration = false).
Proof.
  unfold is_centering_iteration.
  assert (∀ n, ((n mod 10 =? 0) && (n >? 0))%Z = true ↔
               (n mod 10 = 0 ∧ 0 < n)%Z) as Hc.
  { intros n. rewrite andb_true_iff, Z.eqb_eq, Z.gtb_lt. done. }
  split_and!.
  - rewrite Hc. split.
    + intros [Hm Hp]. exists (iteration / 10)%Z.
      pose proof (Z.div_mod iteration 10 ltac:(lia)). lia.
    + intros (k & Hk & ->). split; [|lia].
      rewrite Z.mul_comm. apply Z.mod_mul. lia.
  - rewrite Hc. intros [Hm Hp] d Hd. apply not_true_is_false.
    rewrite Hc. intros [Hm' _].
    pose proof (Z.div_mod iteration 10 ltac:(lia)).
    pose proof (Z.div_mod (iteration + d) 10 ltac:(lia)). lia.
  - rewrite !Hc. intros [Hm Hp]. split; [|lia].
    replace (iteration + 10)%Z with (iteration + 1 * 10)%Z by lia.
    by rewrite Z.mod_add by lia.
  - intros Hn. apply not_true_is_false. rewrite Hc. lia.
Qed.

Lemma centering_every_tenth_witness :
  is_centering_iteration 20 = true ∧
  is_centering_iteration (20 + 1) = false ∧
  is_centering_iteration (20 + 10) = true ∧
  is_centering_iteration 0 = false.
Proof.
  split_and!.
  - apply (proj1 (centering_every_tenth 20)). exists 2%Z. lia.
  - apply (proj1 (proj2 (centering_every_tenth 20))); [reflexivity|lia].
  - apply (proj1 (proj2 (proj2 (centering_every_tenth 20)))). reflexivity.
  - apply (proj2 (proj2 (proj2 (centering_every_tenth 0)))). lia.
Defined.

End OptimizationHelpers.

(** * Properties of the CSR device addresses *)

Section DeviceAddresses.
Import RedPitaya.

Lemma csr_map_lookup (key : string) (a : Z) :
  csr_map !! key = Some a ↔
  (key, a) ∈ [("gpio_n", 30%Z); ("gpio_p", 31%Z); ("dna", 28%Z); ("xadc", 29%Z)].
Proof.
  rewrite <- elem_of_map_to_list.
  let l := eval vm_compute in (map_to_list csr_map) in
  change (map_to_list csr_map) with l.
  rewrite !elem_of_cons, !elem_of_nil. tauto.
Qed.

(** X5. [get_csr_dev_address] never raises: for a name that is not in
    [csr_map] it returns [None].  It returns an address exactly for the four
    device names, looked up under [name_<name_override>] when a memory is
    given, and no two names get the same address. *)
Theorem csr_dev_address_lookup (name : string) (memory : option string) :
  (∀ a, get_csr_dev_address name memory = Some a ↔
        (match memory with
         | Some name_override => name +:+ "_" +:+ name_override
         | None => name
         end, a)
        ∈ [("gpio_n", 30%Z); ("gpio_p", 31%Z); ("dna", 28%Z); ("xadc", 29%Z)]) ∧
  (∀ name' a,
     get_csr_dev_address name None = Some a →
     get_csr_dev_address name' None = Some a → name = name') ∧
  (name ∉ ["gpio_n"; "gpio_p"; "dna"; "xadc"] →
     get_csr_dev_address name None = None).
Proof.
  unfold get_csr_dev_address. split_and!.
  - intros a. apply csr_map_lookup.
  - intros name' a. rewrite !csr_map_lookup, !elem_of_cons, !elem_of_nil.
    naive_solver.
  - intros Hn. destruct (csr_map !! name) as [a|] eqn:E; [|done].
    apply csr_map_lookup in E. rewrite !elem_of_cons, !elem_of_nil in E.
    rewrite !elem_of_cons, !elem_of_nil in Hn. naive_solver.
Qed.

Lemma csr_dev_address_lookup_witness :
  get_csr_dev_address "gpio" (Some "n") = Some 30%Z ∧
  get_csr_dev_address "linien" None = None.
Proof.
  split.
  - apply (proj1 (csr_dev_address_lookup "gpio" (Some "n"))).
    apply list_elem_of_here.
  - apply (proj2 (proj2 (csr_dev_address_lookup "linien" None))).
    rewrite !elem_of_cons, elem_of_nil. naive_solver.
Defined.

End DeviceAddresses.

(** * Further properties of the supervisor and its worker *)

Section Channel.
Import Controller.

Lemma drain_cons (data : message) (msgs : list message) :
  drain (data :: msgs) =
    match dispatch data with
    | (Ret _, t1) => match drain msgs with (o, t2) => (o, t1 ++ t2) end
    | (Raise e, t1) => (Raise e, t1)
    end.
Proof. reflexivity. Qed.

Lemma drain_left (cmds1 cmds2 : list message) e t1 :
  drain cmds1 = (Raise e, t1) → drain (cmds1 ++ cmds2) = (Raise e, t1).
Proof.
  revert t1. induction cmds1 as [|data cmds1 IH]; intros t1 H; simpl in *;
    [done|].
  destruct (dispatch data) as [[[]|e'] td]; [|done].
  destruct (drain cmds1) as [[[]|e'] t1'] eqn:E; simplify_eq.
  by rewrite (IH _ eq_refl).
Qed.

Lemma operations_snoc (cs : list method_call) (call : method_call) :
  operations (cs ++ [call]) =
    match operations cs with
    | (Ret _, t1) => match operation call with (o, t2) => (o, t1 ++ t2) end
    | (Raise e, t1) => (Raise e, t1)
    end.
Proof.
  induction cs as [|c cs IH]; simpl.
  - destruct (operation call) as [[[]|e] t]; by rewrite ?app_nil_r.
  - destruct (operation c) as [[[]|e] tc]; [|done]. rewrite IH.
    destruct (operations cs) as [[[]|e] t1]; [|done].
    destruct (operation call) as [o t2]. by rewrite app_assoc.
Qed.

Lemma operations_prefix (cs : list method_call) (call : method_call) :
  (operations cs).2 `prefix_of` (operations (cs ++ [call])).2.
Proof.
  rewrite operations_snoc. destruct (operations cs) as [[[]|e] t1]; [|done].
  destruct (operation call) as [o t2]. by apply prefix_app_r.
Qed.

Lemma operations_left (cs : list method_call) (call : method_call) e w :
  operations cs = (Raise e, w) → operations (cs ++ [call]) = (Raise e, w).
Proof. intros H. by rewrite operations_snoc, H. Qed.

Lemma operations_outcome (cs : list method_call) :
  ((Call_shutdown ∉ cs) ∧ (operations cs).1 = Ret tt) ∨
  (Call_shutdown ∈ cs ∧ ∃ e, (operations cs).1 = Raise e).
Proof.
  induction cs as [|call cs IH]; simpl.
  - left. split; [apply not_elem_of_nil|done].
  - assert (call = Call_shutdown ∨
            call ≠ Call_shutdown ∧ ∃ t, operation call = (Ret tt, t))
      as [->|[Hc [t ->]]]
      by (destruct call; first [by left|right; split; [done|by eexists]]).
    + right. split; [left|by eexists].
    + destruct (operations cs) as [o t']. simpl in *.
      destruct IH as [[Hn ->]|[Hi He]].
      * left. split; [|done]. by apply not_elem_of_cons.
      * right. split; [by right|done].
Qed.

Lemma run_in_step (ended : Prop) (ms : list moment)
    (c : AcquisitionController) (w : list worker_event)
    (cs : list method_call) :
  (WorkerEnds ∈ ms → ended) → in_step ended c w cs →
  in_step ended (run ms c).1.1 (w ++ (run ms c).2) (cs ++ user_calls ms).
Proof.
  revert c w cs. induction ms as [|[call| |] ms IH]; intros c w cs He H.
  - simpl. by rewrite !app_nil_r.
  - rewrite run_user. cbn [user_calls].
    replace (cs ++ call :: user_calls ms)
      with ((cs ++ [call]) ++ user_calls ms) by by rewrite <- app_assoc.
    assert (in_step ended (invoke call c).1.2 w (cs ++ [call])) as H'.
    { unfold in_step in *. destruct c as [[[unread|]|]]; simpl in H; [| |done].
      - destruct (invoke_connected call unread) as (data & -> & Hd). simpl.
        rewrite operations_snoc, <- H, <- Hd.
        destruct (drain unread) as [[[]|e] t] eqn:E.
        + rewrite (drain_app _ _ _ E). simpl.
          destruct (dispatch data) as [[[]|e] td];
            by rewrite ?app_nil_r, ?app_assoc.
        + by rewrite (drain_left _ _ _ _ E).
      - destruct (invoke_closed call) as [o ->]. simpl.
        destruct H as [Hp Hx]. split.
        + etrans; [exact Hp|apply operations_prefix].
        + intros Hn. destruct (Hx Hn) as [e Hop]. exists e.
          by apply operations_left. }
    destruct (invoke call c) as [[o c1] t1]. simpl in H'.
    specialize (IH c1 w _ (λ Hin, He (list_elem_of_further _ _ _ Hin)) H').
    by destruct (run ms c1) as [[c2 t2] w2].
  - rewrite run_drains. cbn [user_calls].
    assert (in_step ended (worker_drains c).1 (w ++ (worker_drains c).2) cs)
      as H'.
    { unfold in_step, worker_drains in *.
      destruct c as [[[unread|]|]]; simpl in *; [| |done].
      - destruct (drain unread) as [[[]|e] t]; simpl.
        + by rewrite app_nil_r.
        + rewrite <- H. simpl. split; [done|]. by eexists.
      - by rewrite app_nil_r. }
    destruct (worker_drains c) as [c1 w1]. simpl in H'.
    specialize (IH c1 _ _ (λ Hin, He (list_elem_of_further _ _ _ Hin)) H').
    destruct (run ms c1) as [[c2 t2] w2]. simpl in *. by rewrite app_assoc.
  - cbn [run user_calls].
    assert (in_step ended (worker_ends c) w cs) as H'.
    { unfold in_step, worker_ends in *.
      destruct c as [[[unread|]|]]; simpl in *; [| |done].
      - split.
        + destruct (drain unread) as [o t]. rewrite <- H. simpl.
          by apply prefix_app_r.
        + intros Hn. destruct Hn. apply He. left.
      - done. }
    apply (IH _ _ _ (λ Hin, He (list_elem_of_further _ _ _ Hin)) H').
Qed.

(** X6. However the calls of the supervisor's methods and the worker's
    rounds through the pipe interleave, the worker performs the operations
    of the calls, each with the call's arguments, in the order of the calls
    and none twice, and none from the first [shutdown] on: what it has done
    is at any time the beginning of what the calls ask for.  Unless the
    worker's process ends by itself, after its next round it has done all of
    it, and its end of the pipe is closed exactly if [shutdown] was among
    the calls: calls made after it has left fail and are lost. *)
Theorem commands_dispatched_in_call_order (ms : list moment) :
  (run ms {| parent_conn := Some (Connected []) |}).2
    `prefix_of` (operations (user_calls ms)).2 ∧
  (WorkerEnds ∉ ms →
   let r := run (ms ++ [WorkerDrains]) {| parent_conn := Some (Connected []) |} in
   r.2 = (operations (user_calls ms)).2 ∧
   (Call_shutdown ∈ user_calls ms → parent_conn r.1.1 = Some PeerClosed) ∧
   (Call_shutdown ∉ user_calls ms → parent_conn r.1.1 = Some (Connected []))).
Proof.
  split.
  - pose proof (run_in_step True ms {| parent_conn := Some (Connected []) |}
                  [] [] (λ _, I) eq_refl) as H.
    unfold in_step in H. simpl in H.
    destruct (run ms _) as [[[[[unread|]|]] t] w]; simpl in *; [| |done].
    + destruct (drain unread) as [o t']. rewrite <- H. simpl.
      by apply prefix_app_r.
    + apply H.
  - intros He r. subst r.
    assert (WorkerEnds ∈ ms ++ [WorkerDrains] → False) as He'.
    { rewrite elem_of_app, list_elem_of_singleton. by intros [?|?]. }
    pose proof (run_in_step False (ms ++ [WorkerDrains])
                  {| parent_conn := Some (Connected []) |} [] [] He' eq_refl)
      as H.
    assert (user_calls (ms ++ [WorkerDrains]) = user_calls ms) as Hu.
    { clear. induction ms as [|[call| |] ms IH]; simpl; by rewrite ?IH. }
    rewrite Hu in H. clear Hu.
    assert (∃ c t w, run ms {| parent_conn := Some (Connected []) |} =
                       (c, t, w) ∧ is_Some (parent_conn c)) as (c & t & w & E & Hc).
    { pose proof (run_in_step True ms {| parent_conn := Some (Connected []) |}
                    [] [] (λ _, I) eq_refl) as H0.
      destruct (run ms _) as [[c t] w]. exists c, t, w. split; [done|].
      unfold in_step in H0. simpl in H0.
      by destruct (parent_conn c) as [[]|]. }
    rewrite run_app, E in H |- *. rewrite run_drains in H |- *.
    unfold in_step, worker_drains in *. cbn [run] in *.
    destruct (operations_outcome (user_calls ms)) as [[Hn Ho]|[Hi [e Ho]]];
      destruct c as [[[unread|]|]]; simpl in *; try by destruct Hc.
    + destruct (drain unread) as [[[]|e] t'] eqn:Ed; simpl in *;
        repeat rewrite app_nil_r in H; repeat rewrite app_nil_r.
      * by rewrite <- H.
      * destruct H as [_ H]. destruct (H id) as [e' H'].
        rewrite H' in Ho. done.
    + repeat rewrite app_nil_r in H; repeat rewrite app_nil_r. destruct H as [_ H].
      destruct (H id) as [e' H']. rewrite H' in Ho. done.
    + destruct (drain unread) as [[[]|e'] t'] eqn:Ed; simpl in *;
        repeat rewrite app_nil_r in H; repeat rewrite app_nil_r.
      * rewrite <- H in Ho. done.
      * destruct H as [_ H]. destruct (H id) as [e'' H'].
        by rewrite H'.
    + repeat rewrite app_nil_r in H; repeat rewrite app_nil_r. destruct H as [_ H].
      destruct (H id) as [e'' H']. by rewrite H'.
Qed.

Lemma commands_dispatched_in_call_order_witness :
  (run ([User (Call_set_csr (VStr "gpio") (VInt 1)); WorkerDrains;
         User Call_pause_acquisition; User Call_shutdown;
         User (Call_set_sweep_speed (VInt 3)); WorkerDrains;
         User (Call_set_dual_channel (VBool true))] ++ [WorkerDrains])
     {| parent_conn := Some (Connected []) |}) =
    ({| parent_conn := Some PeerClosed |}, [StartNginx],
     [SetCsr [VStr "gpio"; VInt 1]; PauseAcquisition]) ∧
  (run ([User (Call_set_csr (VStr "gpio") (VInt 1)); WorkerDrains;
         User Call_pause_acquisition; User Call_shutdown;
         User (Call_set_sweep_speed (VInt 3)); WorkerDrains;
         User (Call_set_dual_channel (VBool true))] ++ [WorkerDrains])
     {| parent_conn := Some (Connected []) |}).2 =
    (operations
       [Call_set_csr (VStr "gpio") (VInt 1); Call_pause_acquisition;
        Call_shutdown; Call_set_sweep_speed (VInt 3);
        Call_set_dual_channel (VBool true)]).2.
Proof.
  split; [reflexivity|].
  apply (commands_dispatched_in_call_order
           [User (Call_set_csr (VStr "gpio") (VInt 1)); WorkerDrains;
            User Call_pause_acquisition; User Call_shutdown;
            User (Call_set_sweep_speed (VInt 3)); WorkerDrains;
            User (Call_set_dual_channel (VBool true))]).
  rewrite !not_elem_of_cons. split_and!; try done. apply not_elem_of_nil.
Defined.

Lemma sleeps_app (t1 t2 : list worker_event) :
  sleeps (t1 ++ t2) = sleeps t1 + sleeps t2.
Proof.
  induction t1 as [|e t1 IH]; [done|]. destruct e; simpl; by rewrite ?IH.
Qed.

Lemma pulls_app (t1 t2 : list worker_event) :
  pulls (t1 ++ t2) = pulls t1 + pulls t2.
Proof.
  induction t1 as [|e t1 IH]; [done|]. destruct e; simpl; by rewrite ?IH.
Qed.

Lemma drain_quiet (cmds : list message) :
  sleeps (drain cmds).2 = 0 ∧ pulls (drain cmds).2 = 0 ∧
  pushed (drain cmds).2 = [].
Proof.
  induction cmds as [|data cmds IH]; simpl; [done|].
  assert (sleeps (dispatch data).2 = 0 ∧ pulls (dispatch data).2 = 0 ∧
          pushed (dispatch data).2 = []) as Hd.
  { unfold dispatch. destruct data.1; repeat case_match; done. }
  destruct (dispatch data) as [[[]|e] td]; [|done].
  destruct (drain cmds) as [o t]. simpl in *.
  rewrite sleeps_app, pulls_app, pushed_app.
  destruct Hd as (-> & -> & ->), IH as (-> & -> & ->). done.
Qed.

(** X8. Every iteration of the worker's loop that is not left by an
    exception asks its service for data once, pushes at most one frame and
    sleeps once: in any run there are as many sleeps as data pulls, at most
    as many pushed frames, and no more of them than iterations; a run that
    is still going has slept once per iteration. *)
Theorem one_pull_and_sleep_per_iteration lh (script : list tick) :
  length (pushed (worker_loop lh script).2) ≤ pulls (worker_loop lh script).2 ∧
  pulls (worker_loop lh script).2 = sleeps (worker_loop lh script).2 ∧
  sleeps (worker_loop lh script).2 ≤ length script ∧
  (∀ h, (worker_loop lh script).1 = Ret h →
        sleeps (worker_loop lh script).2 = length script).
Proof.
  revert lh. induction script as [|k script IH]; intros lh; simpl.
  - split_and!; done || lia.
  - unfold iteration, load_and_send.
    destruct (drain_quiet (commands k)) as (Hs & Hp & Hf).
    destruct (drain (commands k)) as [[[]|e] td]; simpl in *.
    + destruct (new_data_returned _).
      * specialize (IH (new_hash (return_data k lh))).
        destruct (worker_loop _ script) as [o t]. simpl in *.
        rewrite !sleeps_app, !pulls_app, !pushed_app, !length_app, Hs, Hp, Hf.
        simpl. destruct IH as (? & ? & ? & Hr). split_and!; try lia.
        intros h Hh. rewrite (Hr h Hh). lia.
      * specialize (IH lh).
        destruct (worker_loop _ script) as [o t]. simpl in *.
        rewrite !sleeps_app, !pulls_app, !pushed_app, !length_app, Hs, Hp, Hf.
        simpl. destruct IH as (? & ? & ? & Hr). split_and!; try lia.
        intros h Hh. rewrite (Hr h Hh). lia.
    + rewrite Hs, Hp, Hf. simpl. split_and!; done || lia.
Qed.

Lemma one_pull_and_sleep_per_iteration_witness :
  let script := [{| commands := []; return_data := steady_source |};
                 {| commands := []; return_data := steady_source |}] in
  sleeps (worker_loop VNone script).2 = 2 ∧
  length (pushed (worker_loop VNone script).2) ≤
    pulls (worker_loop VNone script).2.
Proof.
  intros script. split.
  - apply (proj2 (proj2 (proj2 (one_pull_and_sleep_per_iteration VNone script)))
             (VInt 7)).
    reflexivity.
  - apply (one_pull_and_sleep_per_iteration VNone script).
Defined.

Lemma drain_raise (cmds1 cmds2 : list message) (bad : message) t1 e tb :
  drain cmds1 = (Ret tt, t1) →
  dispatch bad = (Raise e, tb) →
  drain (cmds1 ++ bad :: cmds2) = (Raise e, t1 ++ tb).
Proof.
  intros H1 Hb. rewrite (drain_app _ _ _ H1), drain_cons, Hb. done.
Qed.

(** X9. A tuple without payload for a command whose branch reads the payload
    makes the worker raise [IndexError]; nothing catches it, so like a
    shutdown it ends the loop on the spot: the tuples behind it are not
    dispatched, no data is pulled and no frame pushed.  Only [SHUTDOWN] and
    [PAUSE_ACQUISIITON] do without a payload. *)
Theorem missing_payload_leaves_loop lh (pre : list tick) lh1 t0
    (cmds1 : list message) t1 (tag : AcquisitionProcessSignals)
    (cmds2 : list message) (rd : pyval → return_data_reply)
    (post : list tick) :
  worker_loop lh pre = (Ret lh1, t0) →
  drain cmds1 = (Ret tt, t1) →
  needs_payload tag = true →
  worker_loop lh
    (pre ++ {| commands := cmds1 ++ (tag, []) :: cmds2;
               return_data := rd |} :: post)
  = (Raise IndexError, t0 ++ t1).
Proof.
  intros Hpre Hd Hn. rewrite (worker_loop_app _ _ _ _ _ Hpre). simpl.
  unfold iteration. simpl.
  rewrite (drain_raise _ _ _ _ IndexError [] Hd);
    [by rewrite app_nil_r|].
  by destruct tag.
Qed.

Lemma missing_payload_leaves_loop_witness :
  worker_loop VNone
    ([{| commands := []; return_data := steady_source |}] ++
     {| commands := [(PAUSE_ACQUISIITON, [])] ++
                    (SET_SWEEP_SPEED, []) :: [(SET_DUAL_CHANNEL, [VBool true])];
        return_data := steady_source |} :: [])
  = (Raise IndexError,
     [ReturnData VNone;
      PipeSend (VInt 7) (VBool false) (VStr "trace") (VInt 42); Sleep] ++
     [PauseAcquisition]).
Proof.
  apply (missing_payload_leaves_loop VNone _ (VInt 7)); reflexivity.
Defined.

End Channel.

(** * Further properties of the remote parameter mirror *)

Section Handles.
Import RemoteParameters.

Lemma cached_after_app (k : string) (p : RemoteParameter)
    (s1 s2 : list (string * pyval)) :
  cached_after k p (s1 ++ s2) = cached_after k (cached_after k p s1) s2.
Proof.
  revert p. induction s1 as [|[n v] s1 IH]; intros p; simpl; [done|].
  by rewrite IH.
Qed.

Lemma cached_after_uncached (k : string) (p : RemoteParameter)
    (seen : list (string * pyval)) :
  use_cache p = false → cached_after k p seen = p.
Proof.
  intros Hp. induction seen as [|[n v] seen IH]; simpl; [done|].
  rewrite Hp. by destruct (decide (n = k)).
Qed.

Lemma cached_after_cached (k : string) (p : RemoteParameter)
    (seen : list (string * pyval)) :
  is_Some (_cached_value p) → is_Some (_cached_value (cached_after k p seen)).
Proof.
  revert p. induction seen as [|[n v] seen IH]; intros p Hp; simpl; [done|].
  apply IH. destruct (decide (n = k)); [|done].
  by destruct (use_cache p).
Qed.

Lemma handle_at_caches_after (m m' : mirror) (seen : list (string * pyval)) (k : string) :
  (∀ k, m' !! k = caches_after m seen k) →
  handle_at m' k = (λ p, cached_after k p seen) <$> handle_at m k.
Proof.
  intros H. unfold handle_at. rewrite H. unfold caches_after.
  by destruct (m !! k) as [[]|].
Qed.

(** What a poll does to the handles: it runs the cache loop over a part
    [seen] of the batch the connection delivers, if it delivers one. *)
Lemma poll_handles (nw : net) (m : mirror) o m' t :
  check_for_changed_parameters nw m = (o, m', t) →
  ∃ seen,
    seen `prefix_of` default [] (changed_parameters_queue nw) ∧
    ∀ k, handle_at m' k = (λ p, cached_after k p seen) <$> handle_at m k.
Proof.
  unfold check_for_changed_parameters. intros H.
  assert (∀ m1 : mirror, (∀ k, handle_at m1 k = handle_at m k) →
            ∃ seen, seen `prefix_of` default [] (changed_parameters_queue nw) ∧
              ∀ k, handle_at m1 k = (λ p, cached_after k p seen) <$> handle_at m k)
    as Hsame.
  { intros m1 H1. exists []. split; [apply prefix_nil|].
    intros k. rewrite H1. by destruct (handle_at m k). }
  apply bind_inv in H as [(a1 & m1 & t1 & t' & H1 & H & ->)|(e & H1 & ->)];
    apply start_fetch_untouched in H1 as [U1 _]; [|by apply Hsame].
  apply bind_inv in H as [(a2 & m2 & t2 & t'' & H2 & H & ->)|(e & H2 & ->)];
    apply start_registration_untouched in H2 as [U2 _];
    [|apply Hsame; intros k; by rewrite U2].
  assert (∀ (m3 : mirror) o3 t3, consume_fetch nw m2 = (o3, m3, t3) →
            ∃ seen, seen `prefix_of` default [] (changed_parameters_queue nw) ∧
              ∀ k, handle_at m3 k = (λ p, cached_after k p seen) <$> handle_at m k)
    as H3'.
  { intros m3 o3 t3 H3. apply consume_fetch_spec in H3
      as [[_ ->]|(_ & queue & Hq & [(_ & -> & _)|
                  (u & seen & called & Hp & _ & _ & Hm & _)])].
    - apply Hsame. intros k. by rewrite U2.
    - apply Hsame. intros k. by rewrite U2.
    - exists seen. rewrite Hq. split; [done|]. intros k.
      by rewrite (handle_at_caches_after _ _ _ _ Hm), U2, U1. }
  apply bind_inv in H as [(a3 & m3 & t3 & t4 & H3 & H4 & ->)|(e & H3 & ->)];
    apply H3' in H3 as (seen & Hp & Hm3); [|by exists seen].
  apply finish_registration_untouched in H4 as [U4 _].
  exists seen. split; [done|]. intros k. by rewrite U4.
Qed.

Lemma polls_handles (nws : list net) (m : mirror) :
  ∃ seen, ∀ k,
    handle_at (polls nws m).1 k = (λ p, cached_after k p seen) <$> handle_at m k.
Proof.
  revert m. induction nws as [|nw nws IH]; intros m; simpl.
  - exists []. intros k. by destruct (handle_at m k).
  - destruct (check_for_changed_parameters nw m) as [[o m1] t1] eqn:E.
    apply poll_handles in E as (s1 & _ & H1).
    destruct (IH m1) as (s2 & H2). destruct (polls nws m1) as [m2 t2].
    simpl in *. exists (s1 ++ s2). intros k. rewrite H2, H1.
    destruct (handle_at m k) as [p|]; simpl; [|done].
    by rewrite cached_after_app.
Qed.

(** X10. Polling never adds, removes or replaces a handle: after any
    sequence of polls the mirror has a handle exactly at the attributes
    where it had one, with the same name and the same [use_cache],
    [restorable] and [loggable]; a handle that does not use the cache is
    left exactly as it was. *)
Theorem polls_keep_the_handles (nws : list net) (m : mirror) (k : string) :
  match handle_at m k with
  | Some p =>
      ∃ p', handle_at (polls nws m).1 k = Some p' ∧
            name p' = name p ∧ use_cache p' = use_cache p ∧
            restorable p' = restorable p ∧ loggable p' = loggable p ∧
            (use_cache p = false → p' = p)
  | None => handle_at (polls nws m).1 k = None
  end.
Proof.
  destruct (polls_handles nws m) as (seen & H). rewrite H.
  destruct (handle_at m k) as [p|]; simpl; [|done].
  exists (cached_after k p seen). split; [done|].
  destruct (cached_after_flags k p seen) as (? & ? & ? & ?).
  split_and!; try done. apply cached_after_uncached.
Qed.

Lemma polls_keep_the_handles_witness :
  ∃ p', handle_at (polls [scenario_net; quiet_net] scenario_listening).1
          "status" = Some p' ∧
        p' = {| name := "status"; use_cache := false; restorable := false;
                loggable := false; _cached_value := None |}.
Proof.
  pose proof (polls_keep_the_handles [scenario_net; quiet_net]
                scenario_listening "status") as H.
  change (handle_at scenario_listening "status")
    with (Some {| name := "status"; use_cache := false; restorable := false;
                  loggable := false; _cached_value := None |}) in H.
  destruct H as (p' & Hp & _ & _ & _ & _ & Heq).
  exists p'. split; [done|]. by apply Heq.
Defined.

(** X11. Cached values change only through a delivered batch: polls during
    which the connection delivers no batch leave every handle, its cached
    value included, as it was. *)
Theorem quiet_polls_keep_the_caches (nws : list net) (m : mirror) (k : string) :
  Forall (λ nw, changed_parameters_queue nw = None) nws →
  handle_at (polls nws m).1 k = handle_at m k.
Proof.
  intros Hq. revert m. induction Hq as [|nw nws Hnw Hq IH]; intros m; simpl;
    [done|].
  destruct (check_for_changed_parameters nw m) as [[o m1] t1] eqn:E.
  apply poll_handles in E as (seen & Hp & H1). rewrite Hnw in Hp.
  apply prefix_nil_inv in Hp as ->.
  specialize (IH m1). destruct (polls nws m1) as [m2 t2]. simpl in *.
  rewrite IH, H1. by destruct (handle_at m k).
Qed.

Lemma quiet_polls_keep_the_caches_witness :
  handle_at (polls [quiet_net; quiet_net] scenario_mirror).1 "speed" =
    handle_at scenario_mirror "speed".
Proof.
  apply (quiet_polls_keep_the_caches [quiet_net; quiet_net] scenario_mirror).
  by repeat constructor.
Defined.

End Handles.

Section Construction.
Import RemoteParameters.

(** A successful construction, step by step: the loop over the inventory ran
    from [init_state], the attributes were locked and the first poll ran. *)
Lemma construct_steps (uuid : string) (uc : bool) (ps : list inventory_entry)
    (nw : net) (m0 : mirror) t0 :
  construct uuid uc ps nw = (Ret tt, m0, t0) →
  ∃ m7 t,
    for_each ps (add_parameter uc) (init_state uuid) = (Ret tt, m7, []) ∧
    check_for_changed_parameters nw
      (<["_attributes_locked" := OVal (VBool true)]> m7) = (Ret tt, m0, t) ∧
    t0 = CallInitParameterSync (OVal (VStr uuid)) :: t.
Proof.
  unfold construct, __init__. intros H.
  repeat (apply bind_inv in H
            as [([] & ? & ? & ? & ?Hs & H & ->)|(? & _ & ?)]; [|done];
          rewrite setattr_unlocked in Hs
            by (by rewrite ?lookup_insert_ne by done);
          simplify_eq; cbn [app] in * ).
  fold (init_state uuid) in H.
  assert (init_state uuid !! "remote" = Some ORemote) as Hr by done.
  assert (init_state uuid !! "uuid" = Some (OVal (VStr uuid))) as Hu by done.
  apply bind_inv in H as [([] & ? & ? & ? & Hs & H & ->)|(? & Hs & ?)];
    unfold remote, bind, getattr, ret in Hs; rewrite Hr in Hs; [|done].
  simplify_eq.
  apply bind_inv in H as [(u & ? & ? & ? & Hs & H & ->)|(? & Hs & ?)];
    unfold getattr in Hs; rewrite Hu in Hs; [|done].
  simplify_eq. rewrite bind_emit in H.
  match type of H with
  | match ?c with _ => _ end = _ => destruct c as [[o' m'] t'] eqn:E
  end.
  simplify_eq.
  apply bind_inv in E as [([] & m7 & t7 & ? & Hl & H & ->)|(? & _ & ?)];
    [|done].
  pose proof (add_parameters_spec _ _ _ _ _ _ Hl) as [-> _].
  apply bind_inv in H as [([] & ? & ? & ? & Hs & H & ->)|(? & _ & ?)];
    [|done].
  rewrite setattr_underscore in Hs by done. simplify_eq.
  apply bind_inv in H as [([] & ? & ? & ? & Hs & H & ->)|(? & _ & ?)];
    [|done].
  unfold method in Hs. case_match; simplify_eq.
  by eexists _, _.
Qed.

Lemma handle_at_insert (m : mirror) (n k : string) (o : pyobj) :
  handle_at (<[n := o]> m) k =
    if decide (n = k) then match o with OParam p => Some p | _ => None end
    else handle_at m k.
Proof.
  unfold handle_at. destruct (decide (n = k)) as [->|Hne].
  - by rewrite lookup_insert_eq.
  - by rewrite lookup_insert_ne.
Qed.

(** What the body of the loop over the inventory does when it does not
    raise: it binds the entry's handle to the entry's name. *)
Lemma add_parameter_eq (uc : bool) (entry : inventory_entry) (m : mirror) :
  add_parameter uc entry m =
    if locked m && negb (String.prefix "_" (entry_name entry))
    then (Raise AttributeError, m, [])
    else if data_descriptor (entry_name entry)
    then (Raise (if String.eqb (entry_name entry) "__weakref__"
                 then AttributeError else TypeError), m, [])
    else (Ret tt, <[entry_name entry := OParam (handle_of uc entry)]> m, []).
Proof.
  destruct entry as [[[[n v] cc] r] l]. unfold add_parameter, bind.
  rewrite setattr_spec, object_setattr_param. unfold entry_name, handle_of.
  simpl.
  destruct (locked m && _); [done|].
  destruct (data_descriptor n); [done|].
  destruct (uc && cc); simpl; unfold store, ret; [|done].
  by rewrite insert_insert_eq.
Qed.

Lemma handle_of_well_formed (uc : bool) (entry : inventory_entry) :
  name (handle_of uc entry) = entry_name entry ∧
  (use_cache (handle_of uc entry) = true →
     uc = true ∧ is_Some (_cached_value (handle_of uc entry))) ∧
  (use_cache (handle_of uc entry) = false →
     _cached_value (handle_of uc entry) = None).
Proof.
  destruct entry as [[[[n v] cc] r] l]. unfold handle_of, entry_name. simpl.
  destruct uc, cc; simpl; split_and!; try done; eauto.
Qed.

Lemma add_parameters_well_formed (uc : bool) (ps : list inventory_entry)
    (m : mirror) o m' t :
  for_each ps (add_parameter uc) m = (o, m', t) →
  handles_well_formed uc m → handles_well_formed uc m'.
Proof.
  revert m o m' t. induction ps as [|entry ps IH]; intros m o m' t H Hwf;
    cbn [for_each] in H.
  - unfold ret in H. by simplify_eq.
  - assert (∀ m1 o1 t1, add_parameter uc entry m = (o1, m1, t1) →
              handles_well_formed uc m1) as Hstep.
    { intros m1 o1 t1. rewrite add_parameter_eq.
      destruct (locked m && _); [by intros ?; simplify_eq|].
      destruct (data_descriptor _); intros ?; simplify_eq; [done|].
      intros k p. rewrite handle_at_insert.
      destruct (decide _) as [<-|]; [|apply Hwf].
      intros ?; simplify_eq. apply handle_of_well_formed. }
    apply bind_inv in H as [(a & m1 & t1 & t2 & Hb & H & ->)|(e & Hb & ->)].
    + eapply IH; [done|]. by eapply Hstep.
    + by eapply Hstep.
Qed.

Lemma polls_well_formed (uc : bool) (nws : list net) (m : mirror) :
  handles_well_formed uc m → handles_well_formed uc (polls nws m).1.
Proof.
  intros Hwf k p'. destruct (polls_handles nws m) as (seen & H). rewrite H.
  destruct (handle_at m k) as [p|] eqn:E; simpl; [|done].
  intros ?; simplify_eq. destruct (Hwf k p E) as (Hn & Ht & Hf).
  destruct (cached_after_flags k p seen) as (-> & -> & _ & _).
  split_and!; [done| |].
  - intros Hc. destruct (Ht Hc) as [-> Hs]. split; [done|].
    by apply cached_after_cached.
  - intros Hc. rewrite cached_after_uncached by done. by apply Hf.
Qed.

Lemma poll_well_formed (uc : bool) (nw : net) (m : mirror) o m' t :
  check_for_changed_parameters nw m = (o, m', t) →
  handles_well_formed uc m → handles_well_formed uc m'.
Proof.
  intros H Hwf. pose proof (polls_well_formed uc [nw] m Hwf) as Hp.
  simpl in Hp. by rewrite H in Hp.
Qed.

(** The handles of a constructed mirror are well-formed, and stay so. *)
Lemma construct_well_formed (uuid : string) (uc : bool)
    (ps : list inventory_entry) (nw : net) (m0 : mirror) t0 (nws : list net) :
  construct uuid uc ps nw = (Ret tt, m0, t0) →
  handles_well_formed uc (polls nws m0).1.
Proof.
  intros H. apply construct_steps in H as (m7 & t & Hl & Hp & _).
  apply polls_well_formed. eapply poll_well_formed; [done|].
  apply add_parameters_well_formed in Hl.
  - intros k p. rewrite handle_at_insert. destruct (decide _); [done|].
    apply Hl.
  - intros k p Hk. unfold init_state in Hk.
    rewrite !handle_at_insert in Hk. unfold handle_at in Hk.
    rewrite lookup_empty in Hk. by repeat case_decide.
Qed.

(** X12. On a constructed mirror, after any sequence of polls, reading the
    value of a handle that uses the cache returns the cached value without
    a call to the server; reading the value of a handle that does not asks
    the server once, with the name of the attribute the handle is bound to,
    and returns the server's value; in both cases the mirror is left as it
    was. *)
Theorem read_cached_or_asks_server (uuid : string) (uc : bool)
    (ps : list inventory_entry) (nw : net) (m0 : mirror) t0 (nws : list net)
    (attr : string) (p : RemoteParameter) (server : string → pyval) :
  construct uuid uc ps nw = (Ret tt, m0, t0) →
  handle_at (polls nws m0).1 attr = Some p →
  if use_cache p
  then ∃ v, _cached_value p = Some v ∧
            read server attr (polls nws m0).1 = (Ret v, (polls nws m0).1, [])
  else read server attr (polls nws m0).1 =
         (Ret (server attr), (polls nws m0).1, [CallGetParam attr]).
Proof.
  intros Hc Hp.
  destruct (construct_well_formed _ _ _ _ _ _ nws Hc attr p Hp)
    as (Hn & Ht & Hf).
  pose proof (construct_remote _ _ _ _ _ _ nws Hc) as Hr.
  assert ((polls nws m0).1 !! attr = Some (OParam p)) as Hl.
  { unfold handle_at in Hp.
    destruct ((polls nws m0).1 !! attr) as [[]|]; by simplify_eq. }
  unfold read, handle, value, remote, bind, getattr, ret, emit.
  rewrite Hl. simpl. destruct (use_cache p).
  - destruct (Ht eq_refl) as [_ [v Hv]]. exists v. by rewrite Hv.
  - rewrite (Hf eq_refl), Hr, Hn. done.
Qed.

Lemma read_cached_or_asks_server_witness :
  (∃ v, Some (VInt 12) = Some v ∧
        read (λ _, VStr "idle") "speed" (polls [scenario_net] scenario_mirror).1 =
          (Ret v, (polls [scenario_net] scenario_mirror).1, [])) ∧
  read (λ _, VStr "idle") "status" (polls [scenario_net] scenario_mirror).1 =
    (Ret (VStr "idle"), (polls [scenario_net] scenario_mirror).1,
     [CallGetParam "status"]).
Proof.
  split.
  - apply (read_cached_or_asks_server "uuid-1" true scenario_inventory
             quiet_net scenario_mirror
             [CallInitParameterSync (OVal (VStr "uuid-1"));
              AsyncGetChangedParametersQueue (OVal (VStr "uuid-1"))]
             [scenario_net] "speed"
             {| name := "speed"; use_cache := true; restorable := false;
                loggable := false; _cached_value := Some (VInt 12) |});
      reflexivity.
  - apply (read_cached_or_asks_server "uuid-1" true scenario_inventory
             quiet_net scenario_mirror
             [CallInitParameterSync (OVal (VStr "uuid-1"));
              AsyncGetChangedParametersQueue (OVal (VStr "uuid-1"))]
             [scenario_net] "status"
             {| name := "status"; use_cache := false; restorable := false;
                loggable := false; _cached_value := None |});
      reflexivity.
Defined.

(** X13. A mirror constructed with [use_cache] off caches nothing, whatever
    the server says can be cached and whatever the polls deliver: no handle
    uses the cache or has a cached value, and every read of a handle asks
    the server. *)
Theorem without_cache_every_read_asks (uuid : string)
    (ps : list inventory_entry) (nw : net) (m0 : mirror) t0 (nws : list net)
    (attr : string) (p : RemoteParameter) (server : string → pyval) :
  construct uuid false ps nw = (Ret tt, m0, t0) →
  handle_at (polls nws m0).1 attr = Some p →
  use_cache p = false ∧ _cached_value p = None ∧
  read server attr (polls nws m0).1 =
    (Ret (server attr), (polls nws m0).1, [CallGetParam attr]).
Proof.
  intros Hc Hp.
  destruct (construct_well_formed _ _ _ _ _ _ nws Hc attr p Hp)
    as (Hn & Ht & Hf).
  assert (use_cache p = false) as Hu.
  { destruct (use_cache p); [|done]. by destruct (Ht eq_refl). }
  split; [done|]. split; [by apply Hf|].
  pose proof (construct_remote _ _ _ _ _ _ nws Hc) as Hr.
  assert ((polls nws m0).1 !! attr = Some (OParam p)) as Hl.
  { unfold handle_at in Hp.
    destruct ((polls nws m0).1 !! attr) as [[]|]; by simplify_eq. }
  unfold read, handle, value, remote, bind, getattr, ret, emit.
  rewrite Hl. simpl. by rewrite (Hf Hu), Hr, Hn.
Qed.

Lemma without_cache_every_read_asks_witness :
  read (λ _, VInt 10) "speed" (polls [scenario_net] uncached_mirror).1 =
    (Ret (VInt 10), (polls [scenario_net] uncached_mirror).1,
     [CallGetParam "speed"]).
Proof.
  apply (without_cache_every_read_asks "uuid-2" scenario_inventory quiet_net
           uncached_mirror
           [CallInitParameterSync (OVal (VStr "uuid-2"));
            AsyncGetChangedParametersQueue (OVal (VStr "uuid-2"))]
           [scenario_net] "speed"
           {| name := "speed"; use_cache := false; restorable := false;
              loggable := false; _cached_value := None |});
    reflexivity.
Defined.

(** X14. On a constructed mirror, after any sequence of polls, resetting a
    handle makes exactly one call, [exposed_reset_param] with the name of
    the attribute the handle is bound to, and leaves the mirror, the
    handle's cached value included, as it was. *)
Theorem reset_only_calls_server (uuid : string) (uc : bool)
    (ps : list inventory_entry) (nw : net) (m0 : mirror) t0 (nws : list net)
    (attr : string) (p : RemoteParameter) :
  construct uuid uc ps nw = (Ret tt, m0, t0) →
  handle_at (polls nws m0).1 attr = Some p →
  reset_parameter attr (polls nws m0).1 =
    (Ret tt, (polls nws m0).1, [CallResetParam attr]).
Proof.
  intros Hc Hp.
  destruct (construct_well_formed _ _ _ _ _ _ nws Hc attr p Hp) as (Hn & _).
  pose proof (construct_remote _ _ _ _ _ _ nws Hc) as Hr.
  assert ((polls nws m0).1 !! attr = Some (OParam p)) as Hl.
  { unfold handle_at in Hp.
    destruct ((polls nws m0).1 !! attr) as [[]|]; by simplify_eq. }
  unfold reset_parameter, handle, reset, remote, bind, getattr, ret, emit.
  rewrite Hl. simpl. by rewrite Hr, Hn.
Qed.

Lemma reset_only_calls_server_witness :
  reset_parameter "speed" (polls [] scenario_mirror).1 =
    (Ret tt, (polls [] scenario_mirror).1, [CallResetParam "speed"]).
Proof.
  apply (reset_only_calls_server "uuid-1" true scenario_inventory quiet_net
           scenario_mirror
           [CallInitParameterSync (OVal (VStr "uuid-1"));
            AsyncGetChangedParametersQueue (OVal (VStr "uuid-1"))]
           [] "speed"
           {| name := "speed"; use_cache := true; restorable := false;
              loggable := false; _cached_value := Some (VInt 10) |});
    reflexivity.
Defined.

End Construction.

Section Streaming.
Import RemoteParameters.










End Streaming.

Section Registration.
Import RemoteParameters.

Lemma caches_after_plain (m m' : mirror) (seen : list (string * pyval))
    (k : string) (o : pyobj) :
  (∀ k, m' !! k = caches_after m seen k) →
  m !! k = Some o → (∀ p, o ≠ OParam p) → m' !! k = Some o.
Proof.
  intros H Hk Ho. rewrite H. unfold caches_after. rewrite Hk.
  destruct o; try done. by destruct (Ho p).
Qed.

(** With nothing to register, a poll issues and releases no registration and
    leaves nothing to register. *)
Lemma poll_nothing_to_register (nw : net) (m : mirror) o m' t :
  check_for_changed_parameters nw m = (o, m', t) →
  nothing_to_register m →
  nothing_to_register m' ∧ Forall (λ e, registration_delta e = 0%Z) t.
Proof.
  unfold check_for_changed_parameters. intros H Hn.
  assert (∀ (m1 m2 : mirror) o1 t1, start_fetch m1 = (o1, m2, t1) →
            nothing_to_register m1 →
            nothing_to_register m2 ∧
            Forall (λ e, registration_delta e = 0%Z) t1) as S1.
  { intros m1 m2 o1 t1 H1 [Hr Hp]. apply start_fetch_spec in H1
      as [[-> ->]|(_ & _ & u & _ & _ & -> & ->)]; [by repeat constructor|].
    split; [|by repeat constructor].
    split; by rewrite lookup_insert_ne. }
  assert (∀ (m1 m2 : mirror) o1 t1, start_registration m1 = (o1, m2, t1) →
            nothing_to_register m1 →
            nothing_to_register m2 ∧
            Forall (λ e, registration_delta e = 0%Z) t1) as S2.
  { intros m1 m2 o1 t1 H1 [Hr Hp]. rewrite start_registration_eq, Hr, Hp in H1.
    simpl in H1. simplify_eq. by repeat constructor. }
  assert (∀ (m1 m2 : mirror) o1 t1, consume_fetch nw m1 = (o1, m2, t1) →
            nothing_to_register m1 →
            nothing_to_register m2 ∧
            Forall (λ e, registration_delta e = 0%Z) t1) as S3.
  { intros m1 m2 o1 t1 H1 [Hr Hp]. apply consume_fetch_spec in H1
      as [[-> ->]|(_ & queue & _ & [(-> & -> & _)|
                  (u & seen & called & _ & _ & _ & Hm & ->)])];
      [by repeat constructor..|].
    split.
    - split; by eapply caches_after_plain.
    - do 2 (constructor; [done|]). apply Forall_app. split;
        [by apply cache_updates_silent | by apply callback_calls_silent]. }
  assert (∀ (m1 m2 : mirror) o1 t1, finish_registration nw m1 = (o1, m2, t1) →
            nothing_to_register m1 →
            nothing_to_register m2 ∧
            Forall (λ e, registration_delta e = 0%Z) t1) as S4.
  { intros m1 m2 o1 t1 H1 [Hr Hp]. rewrite finish_registration_eq, Hr in H1.
    simplify_eq. by repeat constructor. }
  apply bind_inv in H as [(a1 & m1 & t1 & t' & H1 & H & ->)|(e & H1 & ->)];
    apply S1 in H1 as [N1 F1]; try done.
  apply bind_inv in H as [(a2 & m2 & t2 & t'' & H2 & H & ->)|(e & H2 & ->)];
    apply S2 in H2 as [N2 F2]; try done; [|by rewrite Forall_app].
  apply bind_inv in H as [(a3 & m3 & t3 & t4 & H3 & H4 & ->)|(e & H3 & ->)];
    apply S3 in H3 as [N3 F3]; try done; [|by rewrite !Forall_app].
  apply S4 in H4 as [N4 F4]; [|done]. by rewrite !Forall_app.
Qed.

(** A poll that returns has not met a handle where the registration marker
    or the pending list belong. *)
Lemma first_poll_nothing_to_register (nw : net) (m m' : mirror) t :
  check_for_changed_parameters nw m = (Ret tt, m', t) →
  m !! "_async_listener_registering" = Some (OVal VNone) ∨
    is_Some (handle_at m "_async_listener_registering") →
  m !! "_listeners_pending_remote_registration" = Some (OList []) ∨
    is_Some (handle_at m "_listeners_pending_remote_registration") →
  nothing_to_register m.
Proof.
  unfold check_for_changed_parameters. intros H Hr Hp.
  apply bind_inv in H as [([] & m1 & t1 & ? & H1 & H & ->)|(? & _ & ?)];
    [|done].
  apply bind_inv in H as [([] & m2 & t2 & ? & H2 & H & ->)|(? & _ & ?)];
    [|done].
  apply bind_inv in H as [([] & m3 & t3 & ? & H3 & H4 & ->)|(? & _ & ?)];
    [|done].
  assert (m1 !! "_async_listener_registering" =
            m !! "_async_listener_registering" ∧
          m1 !! "_listeners_pending_remote_registration" =
            m !! "_listeners_pending_remote_registration") as [E1 E1'].
  { apply start_fetch_spec in H1
      as [[_ ->]|(_ & _ & u & _ & _ & _ & ->)]; [done|].
    by rewrite !lookup_insert_ne. }
  destruct Hr as [Hr|[p Hr]].
  - destruct Hp as [Hp|[p Hp]]; [done|]. exfalso.
    unfold handle_at in Hp.
    destruct (m !! "_listeners_pending_remote_registration")
      as [[]|] eqn:E; simplify_eq.
    rewrite start_registration_eq, E1, E1', Hr in H2. simpl in H2. done.
  - exfalso. unfold handle_at in Hr.
    destruct (m !! "_async_listener_registering") as [[]|] eqn:E;
      simplify_eq.
    pose proof (keeps_trans _ _ _
      (untouched_keeps _ _ (start_fetch_untouched _ _ _ _ H1))
      (keeps_trans _ _ _
         (untouched_keeps _ _ (start_registration_untouched _ _ _ _ H2))
         (consume_fetch_keeps _ _ _ _ _ H3))
      "_async_listener_registering") as Hk.
    rewrite E in Hk. destruct Hk as [p' Hk]. unfold handle_at in Hk.
    rewrite finish_registration_eq in H4.
    destruct (m3 !! "_async_listener_registering") as [[]|]; by simplify_eq.
Qed.

(** X16. Neither [__init__] nor [check_for_changed_parameters] puts a name
    into the list of listeners pending registration: a constructed mirror
    that is only polled never calls [register_remote_listeners], has no
    registration outstanding and keeps the pending list empty. *)
Theorem polling_alone_never_registers (uuid : string) (uc : bool)
    (ps : list inventory_entry) (nw0 : net) (m0 : mirror) t0
    (nws : list net) :
  construct uuid uc ps nw0 = (Ret tt, m0, t0) →
  Forall (λ e, registration_delta e = 0%Z) (t0 ++ (polls nws m0).2) ∧
  nothing_to_register (polls nws m0).1.
Proof.
  intros H. apply construct_steps in H as (m7 & t & Hl & Hp & ->).
  apply add_parameters_spec in Hl as [_ Hl].
  assert (nothing_to_register
            (<["_attributes_locked" := OVal (VBool true)]> m7)) as Hn.
  { eapply first_poll_nothing_to_register; [done|..];
      rewrite handle_at_insert, lookup_insert_ne by done;
      rewrite decide_False by done.
    - destruct (Hl "_async_listener_registering") as [->|?];
        [by left|by right].
    - destruct (Hl "_listeners_pending_remote_registration") as [->|?];
        [by left|by right]. }
  destruct (poll_nothing_to_register _ _ _ _ _ Hp Hn) as [Hn0 F0].
  assert (∀ m, nothing_to_register m →
            Forall (λ e, registration_delta e = 0%Z) (polls nws m).2 ∧
            nothing_to_register (polls nws m).1) as Hpolls.
  { clear. induction nws as [|nw nws IH]; intros m Hm; simpl;
      [by split|].
    destruct (check_for_changed_parameters nw m) as [[o m1] t1] eqn:E.
    destruct (poll_nothing_to_register _ _ _ _ _ E Hm) as [Hm1 F1].
    destruct (IH m1 Hm1) as [F2 Hm2].
    destruct (polls nws m1) as [m2 t2]. simpl in *.
    by rewrite Forall_app. }
  destruct (Hpolls m0 Hn0) as [F Hn']. split; [|done].
  constructor; [done|]. by rewrite Forall_app.
Qed.

Lemma polling_alone_never_registers_witness :
  Forall (λ e, registration_delta e = 0%Z)
    ([CallInitParameterSync (OVal (VStr "uuid-1"));
      AsyncGetChangedParametersQueue (OVal (VStr "uuid-1"))] ++
     (polls [scenario_net; scenario_net] scenario_mirror).2) ∧
  nothing_to_register (polls [scenario_net; scenario_net] scenario_mirror).1.
Proof.
  apply (polling_alone_never_registers "uuid-1" true scenario_inventory
           quiet_net scenario_mirror _ [scenario_net; scenario_net]).
  reflexivity.
Defined.

End Registration.

Section Snapshot.
Import RemoteParameters.

Lemma add_parameters_frame (uc : bool) (ps : list inventory_entry)
    (m : mirror) o m' t (k : string) :
  for_each ps (add_parameter uc) m = (o, m', t) →
  k ∉ entry_name <$> ps → m' !! k = m !! k.
Proof.
  revert m o m' t. induction ps as [|entry ps IH]; intros m o m' t H Hk;
    cbn [for_each] in H.
  - unfold ret in H. by simplify_eq.
  - rewrite fmap_cons, not_elem_of_cons in Hk. destruct Hk as [Hne Hk].
    assert (∀ m1 o1 t1, add_parameter uc entry m = (o1, m1, t1) →
              m1 !! k = m !! k) as Hstep.
    { intros m1 o1 t1. rewrite add_parameter_eq.
      destruct (locked m && _); [by intros ?; simplify_eq|].
      destruct (data_descriptor _); intros ?; simplify_eq; [done|].
      by rewrite lookup_insert_ne. }
    apply bind_inv in H as [(a & m1 & t1 & t2 & Hb & H & ->)|(e & Hb & ->)].
    + rewrite (IH _ _ _ _ H Hk). by eapply Hstep.
    + by eapply Hstep.
Qed.

Lemma add_parameters_handles (uc : bool) (ps : list inventory_entry)
    (m m' : mirror) t (entry : inventory_entry) :
  for_each ps (add_parameter uc) m = (Ret tt, m', t) →
  NoDup (entry_name <$> ps) → entry ∈ ps →
  m' !! entry_name entry = Some (OParam (handle_of uc entry)).
Proof.
  revert m t. induction ps as [|e ps IH]; intros m t H Hnd Hin;
    cbn [for_each] in H; [by apply elem_of_nil in Hin|].
  rewrite fmap_cons in Hnd. apply NoDup_cons in Hnd as [Hne Hnd].
  apply bind_inv in H as [([] & m1 & t1 & t2 & Hb & H & ->)|(? & _ & ?)];
    [|done].
  apply elem_of_cons in Hin as [->|Hin].
  - rewrite (add_parameters_frame _ _ _ _ _ _ _ H Hne).
    rewrite add_parameter_eq in Hb.
    destruct (locked m && _); [done|].
    destruct (data_descriptor _); simplify_eq. by rewrite lookup_insert_eq.
  - by eapply IH.
Qed.

Lemma add_parameters_only (uc : bool) (ps : list inventory_entry)
    (m : mirror) o m' t (k : string) :
  for_each ps (add_parameter uc) m = (o, m', t) →
  is_Some (handle_at m' k) →
  is_Some (handle_at m k) ∨ k ∈ entry_name <$> ps.
Proof.
  intros H Hk. destruct (decide (k ∈ entry_name <$> ps)) as [|Hn];
    [by right|left].
  unfold handle_at in *. by rewrite <- (add_parameters_frame _ _ _ _ _ _ _ H Hn).
Qed.

(** X17. Construction turns the inventory into the handles: with distinct
    names in the inventory and no batch delivered during the first poll,
    the mirror has for every entry (not named [_attributes_locked]) a
    handle at the entry's name, with that name, the entry's flags,
    [use_cache] on exactly if the mirror's [use_cache] is on and the entry
    can be cached, and then the entry's value as cached value and no cached
    value otherwise; and it has no handle at any other attribute. *)
Theorem construct_seeds_the_handles (uuid : string) (uc : bool)
    (ps : list inventory_entry) (nw : net) (m0 : mirror) t0 :
  construct uuid uc ps nw = (Ret tt, m0, t0) →
  changed_parameters_queue nw = None →
  NoDup (entry_name <$> ps) →
  (∀ entry, entry ∈ ps → entry_name entry ≠ "_attributes_locked" →
     handle_at m0 (entry_name entry) = Some (handle_of uc entry)) ∧
  (∀ k, is_Some (handle_at m0 k) → k ∈ entry_name <$> ps).
Proof.
  intros H Hq Hnd. apply construct_steps in H as (m7 & t & Hl & Hp & ->).
  apply poll_handles in Hp as (seen & Hs & Hh). rewrite Hq in Hs.
  apply prefix_nil_inv in Hs as ->. split.
  - intros entry Hin Hne. rewrite Hh, handle_at_insert.
    rewrite decide_False by done. unfold handle_at.
    by rewrite (add_parameters_handles _ _ _ _ _ _ Hl Hnd Hin).
  - intros k. rewrite Hh, handle_at_insert. destruct (decide _); [by intros [? ?]|].
    intros Hk.
    assert (is_Some (handle_at m7 k)) as Hk'.
    { destruct (handle_at m7 k); [done|by destruct Hk]. }
    destruct (add_parameters_only _ _ _ _ _ _ _ Hl Hk') as [Hi|]; [|done].
    exfalso. unfold init_state in Hi. rewrite !handle_at_insert in Hi.
    unfold handle_at in Hi. rewrite lookup_empty in Hi.
    repeat case_decide; by destruct Hi.
Qed.

Lemma construct_seeds_the_handles_witness :
  handle_at scenario_mirror "speed" =
    Some (handle_of true ("speed", VInt 10, true, false, false)) ∧
  (∀ k, is_Some (handle_at scenario_mirror k) →
        k ∈ entry_name <$> scenario_inventory).
Proof.
  destruct (construct_seeds_the_handles "uuid-1" true scenario_inventory
              quiet_net scenario_mirror
              [CallInitParameterSync (OVal (VStr "uuid-1"));
               AsyncGetChangedParametersQueue (OVal (VStr "uuid-1"))]
              eq_refl eq_refl) as [H1 H2].
  - repeat constructor; rewrite ?elem_of_cons, ?elem_of_nil; naive_solver.
  - split; [|done].
    apply (H1 ("speed", VInt 10, true, false, false)); [left|done].
Defined.

End Snapshot.
